(** * Turn guidance: intersections and the route-step toolkit

    A shallow embedding of
      - include/extractor/guidance/intersection.hpp
      - include/engine/guidance/toolkit.hpp
    and the properties of these functions that the guidance
    specification states.

    Conventions of the embedding.
      - [double] values (angles, bearings, lengths) are exact rationals:
        comparisons are the exact ones, and rounding, infinities and
        NaN are outside the model.
      - An iterator into a [std::vector] is the index of its element;
        the past-the-end iterator of a container [c] is [cend c],
        i.e. [length c].
      - Dereferencing the past-the-end iterator, or calling [front()] on
        an empty vector, is [Undefined].
      - Unsigned integers are [N]; the arithmetic of [LaneID] is carried
        out in [Z] and wrapped explicitly. *)

From Stdlib Require Import ZArith NArith QArith Qabs Qminmax List Bool Lia Lqa.
From Stdlib Require Import Permutation.
Import ListNotations.

Close Scope Q_scope.

(** ** Scalars *)

Definition double := Q.

(** [a < b] and [a <= b] on doubles. *)
Definition double_lt (a b : double) : bool := negb (Qle_bool b a).
Definition double_le (a b : double) : bool := Qle_bool a b.

(** [std::uint32_t] edge identifiers, [std::uint16_t] lane data
    identifiers, [std::uint8_t] lane counts. *)
Definition EdgeID := N.
Definition LaneDataID := N.
Definition uint8_t := N.

(** The outcome of a call: a value, or undefined behaviour. *)
Inductive behaviour (A : Type) : Type :=
| Returns (a : A)
| Undefined.
Arguments Returns {A} a.
Arguments Undefined {A}.

(** The past-the-end iterator of a container. *)
Definition cend {A : Type} (c : list A) : nat := length c.

(** ** The standard algorithms the headers call *)

Module std.

Section Algorithms.
Context {A : Type}.

(** [std::find_if(first, last, pred)] over the whole of [l]: the index
    of the first element satisfying [pred], [length l] if there is
    none. *)
Fixpoint find_if (pred : A -> bool) (l : list A) : nat :=
  match l with
  | [] => 0
  | x :: rest => if pred x then 0 else S (find_if pred rest)
  end.

(** [std::find_if(first, last, pred)] where [first] is the iterator at
    index [first] of [l] and [last] is [l.end()]. *)
Definition find_if_from (pred : A -> bool) (l : list A) (first : nat) : nat :=
  first + find_if pred (skipn first l).

(** [std::find_if] with a predicate that updates captured state on
    every call: the index found and the state afterwards. *)
Fixpoint find_if_st {St : Type} (pred : A -> St -> bool * St) (l : list A) (s : St)
  : nat * St :=
  match l with
  | [] => (0, s)
  | x :: rest =>
      let '(found, s') := pred x s in
      if found then (0, s')
      else let '(i, s'') := find_if_st pred rest s' in (S i, s'')
  end.

(** The loop of [std::min_element] once the range is known to be
    non-empty: [first] is the index of the head of [rest], [smallest]
    the index of the smallest element so far and [smallest_val] that
    element. *)
Fixpoint min_element_loop (comp : A -> A -> bool) (rest : list A)
         (first smallest : nat) (smallest_val : A) : nat :=
  match rest with
  | [] => smallest
  | x :: rest' =>
      if comp x smallest_val
      then min_element_loop comp rest' (S first) first x
      else min_element_loop comp rest' (S first) smallest smallest_val
  end.

(** [std::min_element(l.begin(), l.end(), comp)]; on an empty range it
    returns [last]. *)
Definition min_element (comp : A -> A -> bool) (l : list A) : nat :=
  match l with
  | [] => cend l
  | x :: rest => min_element_loop comp rest 1 0 x
  end.

(** [std::is_sorted(l.begin(), l.end(), comp)]: no element compares
    less than its predecessor. *)
Fixpoint is_sorted (comp : A -> A -> bool) (l : list A) : bool :=
  match l with
  | [] => true
  | x :: rest =>
      match rest with
      | [] => true
      | y :: _ => if comp y x then false else is_sorted comp rest
      end
  end.

End Algorithms.

(** [false < true] on [bool]. *)
Definition bool_lt (a b : bool) : bool := negb a && b.

(** [std::tie(a1, d1) < std::tie(a2, d2)]: the lexicographic comparison
    of [std::tuple<const bool&, const double&>]. *)
Definition tie_lt (a1 : bool) (d1 : double) (a2 : bool) (d2 : double) : bool :=
  bool_lt a1 a2 || (negb (bool_lt a2 a1) && double_lt d1 d2).

End std.

(** ** util::guidance *)

Module util_guidance.

(** Modelled from the spec: [util::guidance::angularDeviation] is defined
    in util/guidance/toolkit.hpp; it is "the minimal absolute circular
    distance between two angles in [0,360)". *)
Definition angularDeviation (angle from : double) : double :=
  let deviation := Qabs (angle - from)%Q in
  Qmin (360 - deviation)%Q deviation.

End util_guidance.

(** ** extractor::guidance (intersection.hpp) *)

Module extractor_guidance.

(** Modelled from the spec: the direction modifiers are declared in
    extractor/guidance/turn_instruction.hpp; each Left-flavored modifier
    has a Right counterpart, and Straight and U-turn have none. *)
Inductive DirectionModifier : Type :=
| UTurn
| SharpRight
| Right
| SlightRight
| Straight
| SlightLeft
| Left
| SharpLeft.

(** The turn types are an enumeration of turn_instruction.hpp; only its
    underlying integer is used here. *)
Definition TurnType := N.

Record TurnInstruction : Type := mkTurnInstruction
  { type : TurnType;
    direction_modifier : DirectionModifier }.

(** the shape of an intersection only knows about edge IDs and bearings *)
Record IntersectionShapeData : Type := mkIntersectionShapeData
  { eid : EdgeID;
    bearing : double;
    segment_length : double }.

(** [struct IntersectionViewData : IntersectionShapeData] *)
Record IntersectionViewData : Type := mkIntersectionViewData
  { view_shape : IntersectionShapeData;
    entry_allowed : bool;
    angle : double }.

(** [struct ConnectedRoad final : IntersectionViewData] *)
Record ConnectedRoad : Type := mkConnectedRoad
  { road_view : IntersectionViewData;
    instruction : TurnInstruction;
    lane_data_id : LaneDataID }.

(** What the function templates of [intersection_helpers] read of the
    elements of an [IntersectionType]: both element types derive from
    [IntersectionViewData]. *)
Class RoadData (R : Type) : Type := as_view : R -> IntersectionViewData.

#[export] Instance IntersectionViewData_RoadData : RoadData IntersectionViewData :=
  fun v => v.
#[export] Instance ConnectedRoad_RoadData : RoadData ConnectedRoad := road_view.

Definition IntersectionShape := list IntersectionShapeData.
Definition IntersectionView := list IntersectionViewData.
Definition Intersection := list ConnectedRoad.

(** What the function templates read of elements that need not be views:
    every element type derives from [IntersectionShapeData]. *)
Class ShapeData (R : Type) : Type := as_shape : R -> IntersectionShapeData.

#[export] Instance IntersectionShapeData_ShapeData : ShapeData IntersectionShapeData :=
  fun shape => shape.
#[export] Instance RoadData_ShapeData {R : Type} `{RoadData R} : ShapeData R :=
  fun road => view_shape (as_view road).

Section CompareShapeData.
(** [util::bearing::angleBetweenBearings] is declared in util/bearing.hpp. *)
Variable angleBetweenBearings : double -> double -> double.

(** [makeCompareShapeDataByBearing(base_bearing)]: the comparator it
    returns. *)
Definition makeCompareShapeDataByBearing (base_bearing : double)
           (lhs rhs : IntersectionShapeData) : bool :=
  double_lt (angleBetweenBearings base_bearing (bearing lhs))
            (angleBetweenBearings base_bearing (bearing rhs)).

End CompareShapeData.

(** Modelled from the spec: [IntersectionViewData::CompareByAngle] is
    defined in intersection.cpp; it is the comparator of the "sorted
    ascending by angle" invariant. *)
Definition CompareByAngle (self other : IntersectionViewData) : bool :=
  double_lt (angle self) (angle other).

(** [IntersectionView::valid] *)
Definition valid (view : IntersectionView) : bool :=
  std.is_sorted (fun lhs rhs => CompareByAngle lhs rhs) view.

(** Modelled from the spec: the table of [ConnectedRoad::mirror], defined
    in intersection.cpp: it "exchanges any Left-flavored instruction
    modifier for its Right counterpart and vice versa, leaving
    Straight/U-turn modifiers unchanged". *)
Definition mirrored_modifier (m : DirectionModifier) : DirectionModifier :=
  match m with
  | UTurn => UTurn
  | SharpRight => SharpLeft
  | Right => Left
  | SlightRight => SlightLeft
  | Straight => Straight
  | SlightLeft => SlightRight
  | Left => Right
  | SharpLeft => SharpRight
  end.

(** Modelled from the spec: [ConnectedRoad::mirror] is defined in
    intersection.cpp; it "reflects a single connected road's angle about
    the straight-ahead (180 degree) axis" and mirrors the modifier. *)
Definition mirror (road : ConnectedRoad) : ConnectedRoad :=
  let v := road_view road in
  let i := instruction road in
  {| road_view :=
       {| view_shape := view_shape v;
          entry_allowed := entry_allowed v;
          angle := (360 - angle v)%Q |};
     instruction :=
       {| type := type i;
          direction_modifier := mirrored_modifier (direction_modifier i) |};
     lane_data_id := lane_data_id road |}.

(** [ConnectedRoad::getMirroredCopy] *)
Definition getMirroredCopy (road : ConnectedRoad) : ConnectedRoad := mirror road.

(** Modelled from the spec: of [util::NodeBasedDynamicGraph]
    (util/node_based_graph.hpp) the helpers read the number of lanes of
    the road classification of an edge. *)
Record RoadClassification : Type := mkRoadClassification
  { GetNumberOfLanes : uint8_t }.
Record NodeBasedEdgeData : Type := mkNodeBasedEdgeData
  { road_classification : RoadClassification }.
Record NodeBasedDynamicGraph : Type := mkNodeBasedDynamicGraph
  { GetEdgeData : EdgeID -> NodeBasedEdgeData }.

Module intersection_helpers.

Section ShapeTemplates.
Context {ShapeDataType : Type} `{ShapeData ShapeDataType}.

(** [findRoadForEid(intersection, eid)]: find the edge associated with a
    given eid. *)
Definition findRoadForEid (intersection : list ShapeDataType) (eid_ : EdgeID) : nat :=
  std.find_if (fun road => (eid (as_shape road) =? eid_)%N) intersection.

(** [findClosestBearing(intersection, bearing)] *)
Definition findClosestBearing (intersection : list ShapeDataType) (bearing_ : double)
  : nat :=
  std.min_element
    (fun lhs rhs =>
       double_lt (util_guidance.angularDeviation (bearing (as_shape lhs)) bearing_)
                 (util_guidance.angularDeviation (bearing (as_shape rhs)) bearing_))
    intersection.

End ShapeTemplates.

Section Templates.
Context {RoadDataType : Type} `{RoadData RoadDataType}.

(** The comparator of [findClosestTurn]. *)
Definition closest_turn_comp (angle_ : double) (filter : RoadDataType -> bool)
           (lhs rhs : RoadDataType) : bool :=
  let filtered_lhs := filter lhs in
  let filtered_rhs := filter rhs in
  let deviation_lhs := util_guidance.angularDeviation (angle (as_view lhs)) angle_ in
  let deviation_rhs := util_guidance.angularDeviation (angle (as_view rhs)) angle_ in
  std.tie_lt filtered_lhs deviation_lhs filtered_rhs deviation_rhs.

(** [findClosestTurn(intersection, angle, filter)]: [filter] returns
    [false] for the elements to keep and [true] for the elements to
    remove from the considerations. *)
Definition findClosestTurn (intersection : list RoadDataType) (angle_ : double)
           (filter : RoadDataType -> bool) : behaviour nat :=
  let candidate :=
    std.min_element (closest_turn_comp angle_ filter) intersection in
  (* make sure only to return valid elements *)
  match nth_error intersection candidate with
  | None => Undefined
  | Some road => Returns (if filter road then cend intersection else candidate)
  end.

(** [getHighestConnectedLaneCount(intersection, node_based_graph)]: the
    body after [BOOST_ASSERT(!intersection.empty())]. The assertion is the
    precondition of the function: the properties below that depend on it
    assume a non-empty intersection. *)
Definition getHighestConnectedLaneCount (intersection : list RoadDataType)
           (node_based_graph : NodeBasedDynamicGraph) : uint8_t :=
  let to_lane_count (road : RoadDataType) : uint8_t :=
    GetNumberOfLanes
      (road_classification (GetEdgeData node_based_graph (eid (view_shape (as_view road))))) in
  let max_lanes : uint8_t := 0%N in
  let extract_maximal_value (value : uint8_t) (max_lanes : uint8_t) :=
    (false, N.max max_lanes value) in
  let view := map to_lane_count intersection in
  snd (std.find_if_st extract_maximal_value view max_lanes).

End Templates.

End intersection_helpers.

End extractor_guidance.

(** ** engine::guidance (toolkit.hpp) *)

Module engine_guidance.

Import extractor_guidance.

(** [angleToDirectionModifier(bearing)] *)
Definition angleToDirectionModifier (bearing : double) : DirectionModifier :=
  if double_lt bearing 135%Q then Right
  else if double_le bearing 225%Q then Straight
  else Left.

(** [LaneID] is declared in util/typedefs.hpp as an unsigned integer type;
    [TurnLaneType::Mask] is the per-lane turn indicator. *)
Definition LaneID := N.
Definition TurnLaneMask := N.

(** Modelled from the spec: [RouteStep] is declared in
    engine/guidance/route_step.hpp. A step carries its maneuver and its
    intersections; "for a step's first intersection, the raw lane
    description is a left-to-right ordered sequence of per-lane turn
    indicators", next to the lanes participating in the turn and the
    recorded count of lanes right of the chosen turn. *)
Record LaneTuple : Type := mkLaneTuple
  { lanes_in_turn : LaneID;
    first_lane_from_the_right : LaneID }.
Record IntermediateIntersection : Type := mkIntermediateIntersection
  { lanes : LaneTuple;
    lane_description : list TurnLaneMask }.
Record StepManeuver : Type := mkStepManeuver
  { instruction : TurnInstruction }.
Record RouteStep : Type := mkRouteStep
  { maneuver : StepManeuver;
    intersections : list IntermediateIntersection }.

(** [v.front()] *)
Definition front {A : Type} (v : list A) : behaviour A :=
  match v with
  | [] => Undefined
  | x :: _ => Returns x
  end.

Section Roundabouts.
(** [entersRoundabout] and [leavesRoundabout] are declared in
    extractor/guidance/turn_instruction.hpp. *)
Variables entersRoundabout leavesRoundabout : TurnInstruction -> bool.

(** The functor [fn]: its state, and the effect on it of a call with the
    pair of iterators [(enter, leave)]. *)
Context {Fn : Type}.
Variable call : Fn -> nat * nat -> Fn.

(** The [while] loop of [forEachRoundabout] over [steps], where [last] is
    [steps.end()]; an iteration moves [first] forward, so [fuel] bounds
    the number of iterations. *)
Fixpoint forEachRoundabout_loop (steps : list RouteStep) (fuel first : nat) (fn : Fn)
  : Fn :=
  match fuel with
  | 0 => fn
  | S fuel' =>
      let last := cend steps in
      if Nat.eqb first last then fn
      else
        let enter :=
          std.find_if_from
            (fun step => entersRoundabout (instruction (maneuver step))) steps first in
        (* enter has to come before leave, otherwise: faulty data / partial
           roundabout, skip those *)
        let leave :=
          std.find_if_from
            (fun step => leavesRoundabout (instruction (maneuver step))) steps enter in
        (* No roundabouts, or partial one (like start / end inside a
           roundabout) *)
        if Nat.eqb enter last || Nat.eqb leave last then fn
        else
          (* Skip to first step after the currently handled enter / leave
             pair *)
          forEachRoundabout_loop steps fuel' (S leave) (call fn (enter, leave))
  end.

(** [forEachRoundabout(steps.begin(), steps.end(), fn)] *)
Definition forEachRoundabout (steps : list RouteStep) (fn : Fn) : Fn :=
  forEachRoundabout_loop steps (S (length steps)) 0 fn.

End Roundabouts.

(** The roundabout ranges in the order [forEachRoundabout] hands them to
    its functor: the functor that records its arguments. *)
Definition roundabouts (entersRoundabout leavesRoundabout : TurnInstruction -> bool)
           (steps : list RouteStep) : list (nat * nat) :=
  forEachRoundabout entersRoundabout leavesRoundabout
    (fun seen range => seen ++ [range]) steps [].

Section Lanes.
(** The width in bits of [LaneID]. *)
Variable LaneID_bits : N.

(** Conversion of an integer to [LaneID]. *)
Definition to_LaneID (z : Z) : LaneID := Z.to_N (z mod 2 ^ Z.of_N LaneID_bits).

(** [numLanesToTheRight(step)] *)
Definition numLanesToTheRight (step : RouteStep) : behaviour LaneID :=
  match front (intersections step) with
  | Undefined => Undefined
  | Returns i => Returns (first_lane_from_the_right (lanes i))
  end.

(** [numLanesToTheLeft(step)] *)
Definition numLanesToTheLeft (step : RouteStep) : behaviour LaneID :=
  match front (intersections step) with
  | Undefined => Undefined
  | Returns i =>
      let total : LaneID := to_LaneID (Z.of_nat (length (lane_description i))) in
      Returns
        (to_LaneID
           (Z.of_N total
            - (Z.of_N (lanes_in_turn (lanes i))
               + Z.of_N (first_lane_from_the_right (lanes i)))))
  end.

(** A [boost::iterator_range] over a lane description: the offsets of
    its two iterators from [description.begin()]. *)
Record iterator_range : Type := make_iterator_range
  { range_begin : Z;
    range_end : Z }.

(** [lanesToTheLeft(step)] *)
Definition lanesToTheLeft (step : RouteStep) : behaviour iterator_range :=
  match front (intersections step), numLanesToTheLeft step with
  | Returns _, Returns num_lanes_left =>
      Returns (make_iterator_range 0 (0 + Z.of_N num_lanes_left))
  | _, _ => Undefined
  end.

(** [lanesToTheRight(step)] *)
Definition lanesToTheRight (step : RouteStep) : behaviour iterator_range :=
  match front (intersections step), numLanesToTheRight step with
  | Returns i, Returns num_lanes_right =>
      let description := lane_description i in
      Returns
        (make_iterator_range
           (Z.of_nat (cend description) - Z.of_N num_lanes_right)
           (Z.of_nat (cend description)))
  | _, _ => Undefined
  end.

End Lanes.

(** A range lies within a description when its iterators satisfy
    [begin <= range_begin <= range_end <= end]. *)
Definition in_range {A : Type} (description : list A) (r : iterator_range) : bool :=
  (0 <=? range_begin r)%Z && (range_begin r <=? range_end r)%Z
  && (range_end r <=? Z.of_nat (cend description))%Z.

(** The lanes a range denotes, when it lies within the description. *)
Definition lanes_of_range {A : Type} (description : list A) (r : iterator_range)
  : behaviour (list A) :=
  if in_range description r
  then Returns (firstn (Z.to_nat (range_end r) - Z.to_nat (range_begin r))
                  (skipn (Z.to_nat (range_begin r)) description))
  else Undefined.

End engine_guidance.

(** * Vocabulary of the properties *)

Import extractor_guidance.

(** The requirement of the standard on a comparator: a strict weak
    ordering, stated on the boolean function. *)
Class StrictWeakOrder {A : Type} (comp : A -> A -> bool) : Prop :=
  { comp_asym : forall a b, comp a b = true -> comp b a = false;
    comp_negtrans : forall a b c, comp a b = false -> comp b c = false -> comp a c = false }.

(** The key [findClosestTurn] orders the roads by: whether the road is
    excluded, then its angular deviation from the target angle. *)
Definition closest_turn_key {R : Type} `{RoadData R} (target : double)
           (is_excluded : R -> bool) (road : R) : bool * double :=
  (is_excluded road, util_guidance.angularDeviation (angle (as_view road)) target).

(** The lexicographic order of keys, [false] before [true]. *)
Definition key_lt (k1 k2 : bool * double) : Prop :=
  (fst k1 = false /\ fst k2 = true) \/ (fst k1 = fst k2 /\ (snd k1 < snd k2)%Q).

Definition key_le (k1 k2 : bool * double) : Prop :=
  (fst k1 = false /\ fst k2 = true) \/ (fst k1 = fst k2 /\ (snd k1 <= snd k2)%Q).

(** [findClosestTurn] returns an iterator to an element of the
    intersection whose key is minimal, the earliest such element in
    container order. *)
Definition returns_first_key_minimum {R : Type} `{RoadData R} (intersection : list R)
           (target : double) (is_excluded : R -> bool) : Prop :=
  exists i best,
    intersection_helpers.findClosestTurn intersection target is_excluded = Returns i
    /\ nth_error intersection i = Some best
    /\ (forall j road, nth_error intersection j = Some road ->
                       key_le (closest_turn_key target is_excluded best)
                              (closest_turn_key target is_excluded road))
    /\ (forall j road, j < i -> nth_error intersection j = Some road ->
                       key_lt (closest_turn_key target is_excluded best)
                              (closest_turn_key target is_excluded road)).

(** A view of the road with edge [e] at turn angle [a]. *)
Definition view_at (e : EdgeID) (allowed : bool) (a : double) : IntersectionViewData :=
  {| view_shape := {| eid := e; bearing := 0%Q; segment_length := 1%Q |};
     entry_allowed := allowed;
     angle := a |}.

(** The turn angles of the example of intersection.hpp: 0, 90 and 260. *)
Definition example_view : IntersectionView :=
  [view_at 10%N false 0%Q; view_at 11%N true 90%Q; view_at 12%N true 260%Q].

(** A sequence is sorted under a comparator when no element compares less
    than an element before it. *)
Definition sorted_by {A : Type} (comp : A -> A -> bool) (l : list A) : Prop :=
  forall i j x y,
    i < j -> nth_error l i = Some x -> nth_error l j = Some y -> comp y x = false.

(** The turn angles of a view ascend along the container. *)
Definition ascending_angles (view : IntersectionView) : Prop :=
  forall i j x y,
    i < j -> nth_error view i = Some x -> nth_error view j = Some y ->
    (angle x <= angle y)%Q.

(** The lane count [getHighestConnectedLaneCount] reads for a road. *)
Definition lane_count_of {R : Type} `{RoadData R} (graph : NodeBasedDynamicGraph)
           (road : R) : uint8_t :=
  GetNumberOfLanes (road_classification (GetEdgeData graph (eid (view_shape (as_view road))))).

(** A graph whose edges 10, 11 and 12 have 1, 3 and 2 lanes. *)
Definition example_graph : NodeBasedDynamicGraph :=
  {| GetEdgeData := fun e =>
       {| road_classification :=
            {| GetNumberOfLanes :=
                 if (e =? 10)%N then 1%N
                 else if (e =? 11)%N then 3%N
                 else if (e =? 12)%N then 2%N
                 else 0%N |} |} |}.

(** A connected road over a view. *)
Definition road_at (e : EdgeID) (allowed : bool) (a : double) (m : DirectionModifier)
  : ConnectedRoad :=
  {| road_view := view_at e allowed a;
     instruction := {| type := 0%N; direction_modifier := m |};
     lane_data_id := 0%N |}.

(** [LaneID const total = lane_description.size()]: the total lane count of
    an intersection as [numLanesToTheLeft] reads it. *)
Definition lane_total (LaneID_bits : N) (i : engine_guidance.IntermediateIntersection)
  : engine_guidance.LaneID :=
  engine_guidance.to_LaneID LaneID_bits
    (Z.of_nat (length (engine_guidance.lane_description i))).

(** A step whose first intersection has the given lane description and
    lane tuple. *)
Definition step_with_lanes (description : list engine_guidance.TurnLaneMask)
           (in_turn from_the_right : engine_guidance.LaneID) : engine_guidance.RouteStep :=
  {| engine_guidance.maneuver :=
       {| engine_guidance.instruction := {| type := 0%N; direction_modifier := Straight |} |};
     engine_guidance.intersections :=
       [ {| engine_guidance.lanes :=
              {| engine_guidance.lanes_in_turn := in_turn;
                 engine_guidance.first_lane_from_the_right := from_the_right |};
            engine_guidance.lane_description := description |} ] |}.

(** When the lane tuple of the first intersection of a step claims more
    lanes than the description has, [lanesToTheLeft] returns a range that
    does not lie within the description. *)
Definition left_span_out_of_range (LaneID_bits : N) (step : engine_guidance.RouteStep)
  : Prop :=
  forall first rest,
    engine_guidance.intersections step = first :: rest ->
    (N.of_nat (length (engine_guidance.lane_description first))
     < engine_guidance.lanes_in_turn (engine_guidance.lanes first)
       + engine_guidance.first_lane_from_the_right (engine_guidance.lanes first))%N ->
    exists r,
      engine_guidance.lanesToTheLeft LaneID_bits step = Returns r
      /\ engine_guidance.in_range (engine_guidance.lane_description first) r = false.

(** Five lanes, of which two take the turn and one lies right of it. *)
Definition example_lanes : list engine_guidance.TurnLaneMask := [1; 2; 4; 4; 8]%N.
Definition example_lane_step : engine_guidance.RouteStep :=
  step_with_lanes example_lanes 2%N 1%N.

(** Three lanes, with a lane tuple that claims 255 lanes in the turn and
    one right of it. *)
Definition overclaiming_step : engine_guidance.RouteStep :=
  step_with_lanes [1; 2; 4]%N 255%N 1%N.

(** *** Roundabout ranges *)

Section RoundaboutVocabulary.
Variables entersRoundabout leavesRoundabout : TurnInstruction -> bool.

(** The step at index [i] of [steps] enters, respectively leaves, a
    roundabout. *)
Definition enters_at (steps : list engine_guidance.RouteStep) (i : nat) : Prop :=
  exists step,
    nth_error steps i = Some step
    /\ entersRoundabout (engine_guidance.instruction (engine_guidance.maneuver step)) = true.

Definition leaves_at (steps : list engine_guidance.RouteStep) (i : nat) : Prop :=
  exists step,
    nth_error steps i = Some step
    /\ leavesRoundabout (engine_guidance.instruction (engine_guidance.maneuver step)) = true.

(** [i] is the first index from [from] on at which [P] holds. *)
Definition first_from (P : nat -> Prop) (from i : nat) : Prop :=
  from <= i /\ P i /\ forall k, from <= k < i -> ~ P k.

(** [matched_pairs steps from ranges]: scanning [steps] forward from index
    [from], [ranges] are the matched enter/leave pairs. The scan looks for
    the first enter, then from there for the first leave; without an enter,
    or without a leave after the enter, it stops; otherwise the pair is
    taken and the scan resumes right after the leave. *)
Inductive matched_pairs (steps : list engine_guidance.RouteStep)
  : nat -> list (nat * nat) -> Prop :=
| matched_no_enter (from : nat) :
    (forall k, from <= k -> ~ enters_at steps k) ->
    matched_pairs steps from []
| matched_no_leave (from enter : nat) :
    first_from (enters_at steps) from enter ->
    (forall k, enter <= k -> ~ leaves_at steps k) ->
    matched_pairs steps from []
| matched_pair (from enter leave : nat) (ranges : list (nat * nat)) :
    first_from (enters_at steps) from enter ->
    first_from (leaves_at steps) enter leave ->
    matched_pairs steps (S leave) ranges ->
    matched_pairs steps from ((enter, leave) :: ranges).

End RoundaboutVocabulary.

(** Closed ranges [enter, leave] that follow one another from index [from]
    on without overlap and end before index [last]. *)
Fixpoint forward_disjoint (from last : nat) (ranges : list (nat * nat)) : Prop :=
  match ranges with
  | [] => True
  | (enter, leave) :: ranges' =>
      from <= enter /\ enter <= leave /\ leave < last
      /\ forward_disjoint (S leave) last ranges'
  end.

(** A step with an instruction of the given type, and a reading of the
    types for the examples: type 1 enters a roundabout, type 2 leaves one. *)
Definition step_of_type (t : TurnType) : engine_guidance.RouteStep :=
  {| engine_guidance.maneuver :=
       {| engine_guidance.instruction := {| type := t; direction_modifier := Straight |} |};
     engine_guidance.intersections := [] |}.
Definition enters_type_1 (i : TurnInstruction) : bool := (type i =? 1)%N.
Definition leaves_type_2 (i : TurnInstruction) : bool := (type i =? 2)%N.

(** The ranges [ranges] moved [offset] steps further along the sequence. *)
Definition shift_ranges (offset : nat) (ranges : list (nat * nat)) : list (nat * nat) :=
  map (fun range => (offset + fst range, offset + snd range)) ranges.

(** The number of steps of a route that enter, respectively leave, a
    roundabout. *)
Definition count_entering (entersRoundabout : TurnInstruction -> bool)
           (steps : list engine_guidance.RouteStep) : nat :=
  length (filter (fun step => entersRoundabout
                                (engine_guidance.instruction (engine_guidance.maneuver step)))
                 steps).
Definition count_leaving (leavesRoundabout : TurnInstruction -> bool)
           (steps : list engine_guidance.RouteStep) : nat :=
  length (filter (fun step => leavesRoundabout
                                (engine_guidance.instruction (engine_guidance.maneuver step)))
                 steps).

(** The element the iterator of [std::min_element] points to, when the
    range starts with [v] and goes on with [rest]. *)
Fixpoint min_element_value {A : Type} (comp : A -> A -> bool) (rest : list A) (v : A) : A :=
  match rest with
  | [] => v
  | x :: rest' =>
      if comp x v then min_element_value comp rest' x else min_element_value comp rest' v
  end.

(** The lanes left of the turn, right of the turn and in the turn add up to
    the number of lanes of the description, whenever the lanes in the turn
    and the lanes right of it do not exceed that number. *)
Definition lanes_add_up (LaneID_bits : N) (step : engine_guidance.RouteStep) : Prop :=
  forall first rest,
    engine_guidance.intersections step = first :: rest ->
    (engine_guidance.lanes_in_turn (engine_guidance.lanes first)
     + engine_guidance.first_lane_from_the_right (engine_guidance.lanes first)
     <= N.of_nat (length (engine_guidance.lane_description first)))%N ->
    exists left right,
      engine_guidance.numLanesToTheLeft LaneID_bits step = Returns left
      /\ engine_guidance.numLanesToTheRight step = Returns right
      /\ (left + right + engine_guidance.lanes_in_turn (engine_guidance.lanes first)
          = N.of_nat (length (engine_guidance.lane_description first)))%N.

(** A description of 260 lanes, of which one takes the turn and one lies
    right of it. *)
Definition wide_step : engine_guidance.RouteStep :=
  step_with_lanes (repeat 1%N 260) 1%N 1%N.

(** The size of the lane description of an intersection, and the lanes its
    lane tuple claims: those in the turn and those right of it. *)
Definition description_size (i : engine_guidance.IntermediateIntersection) : Z :=
  Z.of_nat (length (engine_guidance.lane_description i)).
Definition claimed_lanes (i : engine_guidance.IntermediateIntersection) : Z :=
  (Z.of_N (engine_guidance.lanes_in_turn (engine_guidance.lanes i))
   + Z.of_N (engine_guidance.first_lane_from_the_right (engine_guidance.lanes i)))%Z.

(** * Properties *)

(** ** Comparisons of doubles *)

Lemma double_le_spec (a b : double) : double_le a b = true <-> (a <= b)%Q.
Proof. unfold double_le. apply Qle_bool_iff. Qed.

Lemma double_lt_spec (a b : double) : double_lt a b = true <-> (a < b)%Q.
Proof.
  unfold double_lt. rewrite negb_true_iff.
  split; intros Hlt.
  - apply Qnot_le_lt. intros Hle. apply Qle_bool_iff in Hle. congruence.
  - destruct (Qle_bool b a) eqn:Hle; [|reflexivity].
    apply Qle_bool_iff in Hle. exfalso. exact (Qlt_not_le _ _ Hlt Hle).
Qed.

Lemma double_lt_false (a b : double) : double_lt a b = false <-> (b <= a)%Q.
Proof.
  unfold double_lt. rewrite negb_false_iff. apply Qle_bool_iff.
Qed.

Lemma double_le_false (a b : double) : double_le a b = false <-> (b < a)%Q.
Proof.
  rewrite <- double_lt_spec. unfold double_lt, double_le.
  destruct (Qle_bool a b); simpl; intuition congruence.
Qed.

(** ** angleToDirectionModifier *)

(** C3: [angleToDirectionModifier] answers [Right] exactly below 135,
    [Straight] exactly on the closed interval from 135 to 225 and [Left]
    exactly above 225; at the boundary, 134.9 is [Right], 135 and 225 are
    [Straight] and 225.1 is [Left]. *)
Theorem angleToDirectionModifier_thresholds :
  (forall angle : double,
      (engine_guidance.angleToDirectionModifier angle = Right <-> (angle < 135)%Q)
      /\ (engine_guidance.angleToDirectionModifier angle = Straight
          <-> (135 <= angle)%Q /\ (angle <= 225)%Q)
      /\ (engine_guidance.angleToDirectionModifier angle = Left <-> (225 < angle)%Q))
  /\ engine_guidance.angleToDirectionModifier 134.9%Q = Right
  /\ engine_guidance.angleToDirectionModifier 135%Q = Straight
  /\ engine_guidance.angleToDirectionModifier 225%Q = Straight
  /\ engine_guidance.angleToDirectionModifier 225.1%Q = Left.
Proof.
  split; [|repeat split; reflexivity].
  intros a. unfold engine_guidance.angleToDirectionModifier.
  destruct (double_lt a 135%Q) eqn:H135; destruct (double_le a 225%Q) eqn:H225.
  all: try apply double_lt_spec in H135; try apply double_lt_false in H135.
  all: try apply double_le_spec in H225; try apply double_le_false in H225.
  all: repeat split; intros; try discriminate; try reflexivity; try lra.
Qed.

(** ** Comparators and std::min_element *)

Section StrictWeakOrderFacts.
Context {A : Type} (comp : A -> A -> bool) `{!StrictWeakOrder comp}.

Lemma comp_irrefl a : comp a a = false.
Proof.
  destruct (comp a a) eqn:E; [|reflexivity].
  rewrite <- E at 1. now apply comp_asym.
Qed.

(** [a < b] and [not (c < b)] give [a < c]. *)
Lemma comp_lt_nlt a b c : comp a b = true -> comp c b = false -> comp a c = true.
Proof.
  intros Hab Hcb. destruct (comp a c) eqn:E; [reflexivity|].
  rewrite (comp_negtrans _ _ _ E Hcb) in Hab. discriminate.
Qed.

Lemma comp_trans a b c : comp a b = true -> comp b c = true -> comp a c = true.
Proof.
  intros Hab Hbc. eapply comp_lt_nlt; [exact Hab|]. now apply comp_asym.
Qed.

(** The invariant of the loop of [std::min_element]: [pre] are the
    elements already visited. *)
Lemma min_element_loop_spec (rest : list A) :
  forall (pre : list A) (smallest : nat) (v : A),
    nth_error pre smallest = Some v ->
    (forall j y, nth_error pre j = Some y -> comp y v = false) ->
    (forall j y, j < smallest -> nth_error pre j = Some y -> comp v y = true) ->
    exists m,
      nth_error (pre ++ rest) (std.min_element_loop comp rest (length pre) smallest v)
      = Some m
      /\ (forall j y, nth_error (pre ++ rest) j = Some y -> comp y m = false)
      /\ (forall j y, j < std.min_element_loop comp rest (length pre) smallest v ->
                      nth_error (pre ++ rest) j = Some y -> comp m y = true).
Proof.
  induction rest as [|x rest' IH]; intros pre s v Hs Hmin Hfirst; simpl.
  - rewrite app_nil_r. exists v. auto.
  - assert (Hcons : pre ++ x :: rest' = (pre ++ [x]) ++ rest')
      by (rewrite <- app_assoc; reflexivity).
    assert (Hlen : S (length pre) = length (pre ++ [x]))
      by (rewrite length_app; simpl; lia).
    rewrite Hcons, Hlen.
    destruct (comp x v) eqn:Hx.
    + apply IH.
      * rewrite nth_error_app2 by lia. now rewrite Nat.sub_diag.
      * intros j y Hj.
        destruct (Nat.lt_ge_cases j (length pre)) as [Hlt|Hge].
        -- rewrite nth_error_app1 in Hj by assumption.
           apply comp_asym. eapply comp_lt_nlt; eauto.
        -- rewrite nth_error_app2 in Hj by assumption.
           destruct (j - length pre) as [|k]; simpl in Hj.
           ++ injection Hj as <-. apply comp_irrefl.
           ++ destruct k; discriminate.
      * intros j y Hlt Hj.
        rewrite nth_error_app1 in Hj by assumption.
        eapply comp_lt_nlt; eauto.
    + apply IH.
      * rewrite nth_error_app1; [assumption|].
        apply nth_error_Some. congruence.
      * intros j y Hj.
        destruct (Nat.lt_ge_cases j (length pre)) as [Hlt|Hge].
        -- rewrite nth_error_app1 in Hj by assumption. eauto.
        -- rewrite nth_error_app2 in Hj by assumption.
           destruct (j - length pre) as [|k]; simpl in Hj.
           ++ now injection Hj as <-.
           ++ destruct k; discriminate.
      * intros j y Hlt Hj.
        assert (s < length pre) by (apply nth_error_Some; congruence).
        rewrite nth_error_app1 in Hj by lia. eauto.
Qed.

(** On a non-empty range [std::min_element] returns a dereferenceable
    iterator, to the first of the elements no other element is less
    than. *)
Lemma min_element_spec (l : list A) :
  l <> [] ->
  exists m,
    nth_error l (std.min_element comp l) = Some m
    /\ (forall j y, nth_error l j = Some y -> comp y m = false)
    /\ (forall j y, j < std.min_element comp l -> nth_error l j = Some y ->
                    comp m y = true).
Proof.
  destruct l as [|x rest]; [congruence|]. intros _.
  apply (min_element_loop_spec rest [x] 0 x).
  - reflexivity.
  - intros [|[|j]] y Hj; simpl in Hj; try discriminate.
    injection Hj as <-. apply comp_irrefl.
  - intros j y Hlt. lia.
Qed.

End StrictWeakOrderFacts.

(** ** findClosestTurn *)

Lemma tie_lt_spec (a1 : bool) (d1 : double) (a2 : bool) (d2 : double) :
  std.tie_lt a1 d1 a2 d2 = true <-> key_lt (a1, d1) (a2, d2).
Proof.
  unfold std.tie_lt, std.bool_lt, key_lt; simpl.
  destruct a1, a2; simpl; rewrite ?double_lt_spec;
    intuition (try discriminate; auto).
Qed.

Lemma tie_lt_false (a1 : bool) (d1 : double) (a2 : bool) (d2 : double) :
  std.tie_lt a1 d1 a2 d2 = false <-> key_le (a2, d2) (a1, d1).
Proof.
  unfold std.tie_lt, std.bool_lt, key_le; simpl.
  destruct a1, a2; simpl; rewrite ?double_lt_false;
    intuition (try discriminate; auto).
Qed.

Lemma key_lt_not_le (k1 k2 : bool * double) : key_lt k1 k2 -> ~ key_le k2 k1.
Proof.
  unfold key_lt, key_le. destruct k1 as [[] d1], k2 as [[] d2]; simpl.
  all: intros [[? ?]|[? ?]] [[? ?]|[? ?]]; try discriminate; lra.
Qed.

Lemma key_le_trans (k1 k2 k3 : bool * double) :
  key_le k1 k2 -> key_le k2 k3 -> key_le k1 k3.
Proof.
  unfold key_le. destruct k1 as [[] d1], k2 as [[] d2], k3 as [[] d3]; simpl.
  all: intros [[? ?]|[? ?]] [[? ?]|[? ?]]; try discriminate; auto.
  all: right; split; [reflexivity|lra].
Qed.

(** The comparator of [findClosestTurn] is a strict weak ordering. *)
#[export] Instance closest_turn_comp_swo {R : Type} `{RoadData R}
  (target : double) (filter : R -> bool) :
  StrictWeakOrder (intersection_helpers.closest_turn_comp target filter).
Proof.
  split; unfold intersection_helpers.closest_turn_comp; cbv zeta.
  - intros a b Hab. apply tie_lt_spec in Hab.
    destruct (std.tie_lt _ _ _ _) eqn:Hba; [|reflexivity].
    apply tie_lt_spec in Hba. exfalso.
    apply (key_lt_not_le _ _ Hab). unfold key_lt, key_le in *. simpl in *.
    destruct Hba as [?|[? ?]]; [now left|right; split; [assumption|lra]].
  - intros a b c Hab Hbc. apply tie_lt_false in Hab, Hbc. apply tie_lt_false.
    exact (key_le_trans _ _ _ Hbc Hab).
Qed.

Lemma closest_turn_comp_key_lt {R : Type} `{RoadData R}
  (target : double) (filter : R -> bool) (lhs rhs : R) :
  intersection_helpers.closest_turn_comp target filter lhs rhs = true
  <-> key_lt (closest_turn_key target filter lhs) (closest_turn_key target filter rhs).
Proof. apply tie_lt_spec. Qed.

Lemma closest_turn_comp_key_le {R : Type} `{RoadData R}
  (target : double) (filter : R -> bool) (lhs rhs : R) :
  intersection_helpers.closest_turn_comp target filter lhs rhs = false
  <-> key_le (closest_turn_key target filter rhs) (closest_turn_key target filter lhs).
Proof. apply tie_lt_false. Qed.

(** The candidate of [findClosestTurn] on a non-empty intersection: the
    first road of minimal key; the result is that candidate, or the end
    iterator when the candidate is excluded. *)
Lemma findClosestTurn_candidate {R : Type} `{RoadData R}
  (intersection : list R) (target : double) (filter : R -> bool) :
  intersection <> [] ->
  exists c best,
    c = std.min_element (intersection_helpers.closest_turn_comp target filter) intersection
    /\ nth_error intersection c = Some best
    /\ intersection_helpers.findClosestTurn intersection target filter
       = Returns (if filter best then cend intersection else c)
    /\ (forall j road, nth_error intersection j = Some road ->
                       key_le (closest_turn_key target filter best)
                              (closest_turn_key target filter road))
    /\ (forall j road, j < c -> nth_error intersection j = Some road ->
                       key_lt (closest_turn_key target filter best)
                              (closest_turn_key target filter road)).
Proof.
  intros Hne.
  destruct (min_element_spec (intersection_helpers.closest_turn_comp target filter)
              intersection Hne)
    as (best & Hnth & Hmin & Hfirst).
  exists (std.min_element (intersection_helpers.closest_turn_comp target filter) intersection),
    best.
  split; [reflexivity|]. split; [assumption|]. split.
  - unfold intersection_helpers.findClosestTurn. cbv zeta. now rewrite Hnth.
  - split.
    + intros j road Hj. apply closest_turn_comp_key_le. eauto.
    + intros j road Hlt Hj. apply closest_turn_comp_key_lt. eauto.
Qed.

(** The example of intersection.hpp: for turn angles [0,90,260] and a query
    of 180 the 260 degree turn is returned; with turns at 90 and 270 both
    deviate by 90 and the first one is returned. *)
Example findClosestTurn_header_example :
  intersection_helpers.findClosestTurn example_view 180%Q (fun _ => false) = Returns 2
  /\ intersection_helpers.findClosestTurn
       [view_at 1%N true 90%Q; view_at 2%N true 270%Q] 180%Q (fun _ => false) = Returns 0
  /\ intersection_helpers.findClosestTurn example_view 180%Q
       (fun road => negb (entry_allowed road) || (200 <=? eid (view_shape road))%N
                    || double_lt 100%Q (angle road))
     = Returns 1.
Proof. repeat split; reflexivity. Qed.

(** [findClosestTurn] never hands out an excluded element. *)
Lemma findClosestTurn_not_excluded {R : Type} `{RoadData R}
  (intersection : list R) (target : double) (filter : R -> bool) (i : nat) (road : R) :
  intersection_helpers.findClosestTurn intersection target filter = Returns i ->
  nth_error intersection i = Some road ->
  filter road = false.
Proof.
  unfold intersection_helpers.findClosestTurn. cbv zeta.
  destruct (nth_error intersection (std.min_element _ intersection)) as [best|] eqn:Hc;
    [|discriminate].
  destruct (filter best) eqn:Hf; intros [= <-] Hi.
  - unfold cend in Hi.
    assert (nth_error intersection (length intersection) = None)
      by (apply nth_error_None; lia).
    congruence.
  - congruence.
Qed.

(** C1 (as amended): when at least one element of the intersection is not
    excluded, [findClosestTurn] returns the element minimizing the
    lexicographic key (excluded, angular deviation from the target), the
    earliest such element in container order; an element that is not
    excluded precedes every excluded one whatever their deviations. *)
Theorem findClosestTurn_first_key_minimum {R : Type} `{RoadData R}
  (intersection : list R) (target : double) (filter : R -> bool) :
  (exists road, In road intersection /\ filter road = false) ->
  returns_first_key_minimum intersection target filter
  /\ (forall kept excluded : R,
         filter kept = false -> filter excluded = true ->
         intersection_helpers.closest_turn_comp target filter kept excluded = true
         /\ key_lt (closest_turn_key target filter kept)
                   (closest_turn_key target filter excluded)).
Proof.
  intros (road & Hin & Hkept). split.
  - assert (Hne : intersection <> []) by (intros ->; contradiction).
    destruct (findClosestTurn_candidate intersection target filter Hne)
      as (c & best & _ & Hnth & Hret & Hmin & Hfirst).
    exists c, best.
    destruct (In_nth_error _ _ Hin) as [j Hj].
    assert (Hbest : filter best = false).
    { specialize (Hmin j road Hj). unfold key_le, closest_turn_key in Hmin.
      simpl in Hmin. destruct Hmin as [[? _]|[? _]]; congruence. }
    rewrite Hbest in Hret. auto.
  - intros kept excluded Hk He.
    assert (Hlt : key_lt (closest_turn_key target filter kept)
                         (closest_turn_key target filter excluded))
      by (left; simpl; auto).
    split; [now apply closest_turn_comp_key_lt|exact Hlt].
Qed.

Lemma findClosestTurn_first_key_minimum_witness :
  returns_first_key_minimum example_view 180%Q (fun road => negb (entry_allowed road))
  /\ (forall kept excluded : IntersectionViewData,
         negb (entry_allowed kept) = false -> negb (entry_allowed excluded) = true ->
         intersection_helpers.closest_turn_comp
           180%Q (fun road => negb (entry_allowed road)) kept excluded = true
         /\ key_lt (closest_turn_key 180%Q (fun road => negb (entry_allowed road)) kept)
                   (closest_turn_key 180%Q (fun road => negb (entry_allowed road)) excluded)).
Proof.
  apply (findClosestTurn_first_key_minimum
           example_view 180%Q (fun road => negb (entry_allowed road))).
  exists (view_at 11%N true 90%Q). split; [simpl; auto|reflexivity].
Defined.

(** The claim without the proviso fails: on a non-empty intersection whose
    only road is excluded the result is the end iterator, not an element. *)
Lemma findClosestTurn_first_key_minimum_counterexample :
  [view_at 10%N true 90%Q] <> []
  /\ ~ returns_first_key_minimum [view_at 10%N true 90%Q] 180%Q (fun _ => true).
Proof.
  split; [discriminate|].
  intros (i & best & Hret & Hnth & _).
  vm_compute in Hret. injection Hret as <-. discriminate.
Qed.

(** Without exclusion: on every non-empty intersection the result is the
    first of the elements whose angular deviation from the target is
    minimal. *)
Lemma findClosestTurn_without_exclusion {R : Type} `{RoadData R}
  (intersection : list R) (target : double) :
  intersection <> [] ->
  exists i best,
    intersection_helpers.findClosestTurn intersection target (fun _ => false) = Returns i
    /\ nth_error intersection i = Some best
    /\ (forall j road,
           nth_error intersection j = Some road ->
           (util_guidance.angularDeviation (angle (as_view best)) target
            <= util_guidance.angularDeviation (angle (as_view road)) target)%Q)
    /\ (forall j road,
           j < i -> nth_error intersection j = Some road ->
           (util_guidance.angularDeviation (angle (as_view best)) target
            < util_guidance.angularDeviation (angle (as_view road)) target)%Q).
Proof.
  intros Hne.
  destruct (findClosestTurn_candidate intersection target (fun _ => false) Hne)
    as (c & best & _ & Hnth & Hret & Hmin & Hfirst).
  exists c, best. repeat split; try assumption.
  - intros j road Hj. destruct (Hmin j road Hj) as [[_ Habs]|[_ Hle]]; [discriminate|].
    exact Hle.
  - intros j road Hlt Hj.
    destruct (Hfirst j road Hlt Hj) as [[_ Habs]|[_ Hless]]; [discriminate|].
    exact Hless.
Qed.

(** C2: on a non-empty intersection all of whose elements are excluded,
    [findClosestTurn] returns the end iterator; and whatever it returns, on
    any intersection, is never an iterator to an excluded element. *)
Theorem findClosestTurn_all_excluded {R : Type} `{RoadData R}
  (intersection : list R) (target : double) (filter : R -> bool) :
  intersection <> [] ->
  (forall road, In road intersection -> filter road = true) ->
  intersection_helpers.findClosestTurn intersection target filter
  = Returns (cend intersection)
  /\ (forall (other : list R) (angle_ : double) (is_excluded : R -> bool) i road,
         intersection_helpers.findClosestTurn other angle_ is_excluded = Returns i ->
         nth_error other i = Some road ->
         is_excluded road = false).
Proof.
  intros Hne Hall. split.
  - destruct (findClosestTurn_candidate intersection target filter Hne)
      as (c & best & _ & Hnth & Hret & _).
    rewrite Hret, (Hall best (nth_error_In _ _ Hnth)). reflexivity.
  - intros other angle_ is_excluded i road. apply findClosestTurn_not_excluded.
Qed.

Lemma findClosestTurn_all_excluded_witness :
  intersection_helpers.findClosestTurn example_view 180%Q (fun _ => true)
  = Returns (cend example_view)
  /\ (forall (other : list IntersectionViewData) (angle_ : double)
             (is_excluded : IntersectionViewData -> bool) i road,
         intersection_helpers.findClosestTurn other angle_ is_excluded = Returns i ->
         nth_error other i = Some road ->
         is_excluded road = false).
Proof.
  apply (findClosestTurn_all_excluded example_view 180%Q (fun _ => true)).
  - discriminate.
  - reflexivity.
Defined.

(** C9: [findClosestTurn] dereferences the result of [std::min_element]
    unconditionally. On an empty intersection that result is the end
    iterator and the call is undefined. On a non-empty intersection the
    candidate is an iterator to an element, the call returns, and it
    returns the end iterator exactly when the candidate is excluded. *)
Theorem findClosestTurn_nonempty_precondition {R : Type} `{RoadData R}
  (target : double) (filter : R -> bool) :
  (std.min_element (intersection_helpers.closest_turn_comp target filter) []
   = cend (@nil R)
   /\ intersection_helpers.findClosestTurn [] target filter = Undefined)
  /\ (forall intersection : list R,
         intersection <> [] ->
         exists c best,
           c = std.min_element (intersection_helpers.closest_turn_comp target filter)
                 intersection
           /\ c < cend intersection
           /\ nth_error intersection c = Some best
           /\ intersection_helpers.findClosestTurn intersection target filter
              = Returns (if filter best then cend intersection else c)
           /\ (intersection_helpers.findClosestTurn intersection target filter
               = Returns (cend intersection) <-> filter best = true)).
Proof.
  split; [split; reflexivity|].
  intros intersection Hne.
  destruct (findClosestTurn_candidate intersection target filter Hne)
    as (c & best & Hc & Hnth & Hret & _).
  assert (Hlt : c < cend intersection)
    by (apply nth_error_Some; congruence).
  exists c, best. repeat split; try assumption.
  - rewrite Hret. destruct (filter best); [reflexivity|].
    intros [= Heq]. lia.
  - intros Hf. now rewrite Hret, Hf.
Qed.

Lemma findClosestTurn_nonempty_precondition_witness :
  exists c best,
    c = std.min_element
          (intersection_helpers.closest_turn_comp
             180%Q (fun road : IntersectionViewData => negb (entry_allowed road)))
          example_view
    /\ c < cend example_view
    /\ nth_error example_view c = Some best
    /\ intersection_helpers.findClosestTurn
         example_view 180%Q (fun road => negb (entry_allowed road))
       = Returns (if negb (entry_allowed best) then cend example_view else c)
    /\ (intersection_helpers.findClosestTurn
          example_view 180%Q (fun road => negb (entry_allowed road))
        = Returns (cend example_view) <-> negb (entry_allowed best) = true).
Proof.
  apply (findClosestTurn_nonempty_precondition
           180%Q (fun road : IntersectionViewData => negb (entry_allowed road))).
  discriminate.
Defined.

(** ** IntersectionView::valid *)

#[export] Instance CompareByAngle_swo : StrictWeakOrder CompareByAngle.
Proof.
  split; unfold CompareByAngle.
  - intros a b Hab. apply double_lt_spec in Hab. apply double_lt_false. lra.
  - intros a b c Hab Hbc. apply double_lt_false in Hab, Hbc.
    apply double_lt_false. lra.
Qed.

Lemma sorted_by_nil {A : Type} (comp : A -> A -> bool) : sorted_by comp [].
Proof. intros i j x y _ Hi. destruct i; discriminate. Qed.

Lemma sorted_by_cons {A : Type} (comp : A -> A -> bool) (x : A) (l : list A) :
  sorted_by comp (x :: l)
  <-> (forall y, In y l -> comp y x = false) /\ sorted_by comp l.
Proof.
  split.
  - intros Hs. split.
    + intros y Hy. destruct (In_nth_error _ _ Hy) as [j Hj].
      apply (Hs 0 (S j) x y); [lia|reflexivity|exact Hj].
    + intros i j a b Hlt Hi Hj. apply (Hs (S i) (S j) a b); [lia|exact Hi|exact Hj].
  - intros [Hhd Htl] i j a b Hlt Hi Hj.
    destruct j as [|j]; [lia|]. simpl in Hj.
    destruct i as [|i]; simpl in Hi.
    + injection Hi as <-. apply Hhd. eapply nth_error_In; eassumption.
    + apply (Htl i j a b); [lia|exact Hi|exact Hj].
Qed.

(** [std::is_sorted] looks at neighbours only; under a strict weak ordering
    that settles every pair. *)
Lemma is_sorted_sorted_by {A : Type} (comp : A -> A -> bool) `{!StrictWeakOrder comp}
  (l : list A) :
  std.is_sorted comp l = true <-> sorted_by comp l.
Proof.
  induction l as [|x rest IH].
  - simpl. split; [intros _; apply sorted_by_nil|reflexivity].
  - rewrite sorted_by_cons. destruct rest as [|y rest'].
    + simpl. split; [intros _|reflexivity].
      split; [intros ? []|apply sorted_by_nil].
    + change (std.is_sorted comp (x :: y :: rest'))
        with (if comp y x then false else std.is_sorted comp (y :: rest')).
      destruct (comp y x) eqn:Hyx.
      * split; [discriminate|]. intros [Hhd _].
        rewrite Hhd in Hyx by (left; reflexivity). discriminate.
      * rewrite IH. split; [|tauto].
        intros Htl. split; [|exact Htl].
        intros z [<-|Hz]; [exact Hyx|].
        apply sorted_by_cons in Htl. destruct Htl as [Hy _].
        eapply comp_negtrans; [apply Hy; exact Hz|exact Hyx].
Qed.

Example valid_examples :
  valid example_view = true
  /\ valid [view_at 1%N true 90%Q; view_at 2%N true 90%Q] = true
  /\ valid [view_at 1%N true 90%Q; view_at 2%N true 0%Q] = false
  /\ valid [] = true.
Proof. repeat split; reflexivity. Qed.

(** C8: [IntersectionView::valid] answers [true] exactly when the elements
    of the view are sorted under [CompareByAngle], that is when the turn
    angles ascend along the container. *)
Theorem IntersectionView_valid_iff_sorted (view : IntersectionView) :
  (valid view = true <-> sorted_by CompareByAngle view)
  /\ (valid view = true <-> ascending_angles view).
Proof.
  assert (Hsorted : valid view = true <-> sorted_by CompareByAngle view).
  { unfold valid.
    change (fun lhs rhs : IntersectionViewData => CompareByAngle lhs rhs)
      with CompareByAngle.
    apply is_sorted_sorted_by. exact CompareByAngle_swo. }
  split; [exact Hsorted|].
  rewrite Hsorted. unfold sorted_by, ascending_angles, CompareByAngle.
  split; intros Hs i j x y Hlt Hi Hj.
  - apply double_lt_false. eauto.
  - apply double_lt_false. eauto.
Qed.

(** ** ConnectedRoad::mirror *)

Lemma mirrored_modifier_involutive (m : DirectionModifier) :
  mirrored_modifier (mirrored_modifier m) = m.
Proof. destruct m; reflexivity. Qed.

Lemma reflect_angle_involutive (a : double) : (360 - (360 - a))%Q = a.
Proof.
  destruct a as [n d]. unfold Qminus, Qplus, Qopp. cbn [Qnum Qden].
  rewrite !Pos.mul_1_l. f_equal. lia.
Qed.

Example mirror_examples :
  mirror (road_at 1%N true 90%Q Right) = road_at 1%N true 270%Q Left
  /\ mirror (road_at 1%N true 200%Q SlightLeft) = road_at 1%N true 160%Q SlightRight
  /\ mirror (road_at 1%N true 180%Q Straight) = road_at 1%N true 180%Q Straight
  /\ getMirroredCopy (road_at 1%N false 350%Q SharpLeft)
     = road_at 1%N false 10%Q SharpRight.
Proof. repeat split; reflexivity. Qed.

(** C7: mirroring a connected road twice gives the road back: the angle,
    reflected about the straight-ahead axis by each mirroring, and the
    instruction modifier return to their values. One mirroring exchanges
    every Left-flavored modifier with its Right counterpart and leaves
    exactly Straight and U-turn fixed. *)
Theorem mirror_involution (x : ConnectedRoad) :
  mirror (mirror x) = x
  /\ getMirroredCopy (getMirroredCopy x) = x
  /\ angle (road_view (mirror x)) = (360 - angle (road_view x))%Q
  /\ (angle (road_view (mirror (mirror x))) == angle (road_view x))%Q
  /\ direction_modifier (instruction (mirror (mirror x)))
     = direction_modifier (instruction x)
  /\ direction_modifier (instruction (mirror x))
     = mirrored_modifier (direction_modifier (instruction x))
  /\ (mirrored_modifier SharpLeft = SharpRight /\ mirrored_modifier SharpRight = SharpLeft
      /\ mirrored_modifier Left = Right /\ mirrored_modifier Right = Left
      /\ mirrored_modifier SlightLeft = SlightRight
      /\ mirrored_modifier SlightRight = SlightLeft)
  /\ (forall m, mirrored_modifier m = m <-> m = Straight \/ m = UTurn).
Proof.
  assert (Hinv : mirror (mirror x) = x).
  { destruct x as [[shape allowed a] [t m] lane]. unfold mirror. simpl.
    now rewrite reflect_angle_involutive, mirrored_modifier_involutive. }
  split; [exact Hinv|]. split; [exact Hinv|]. split; [reflexivity|].
  split; [now rewrite Hinv|]. split; [now rewrite Hinv|].
  split; [reflexivity|]. split; [repeat split; reflexivity|].
  intros m. split.
  - destruct m; simpl; intros Hm; try discriminate; auto.
  - intros [->| ->]; reflexivity.
Qed.

(** ** getHighestConnectedLaneCount *)

(** The predicate handed to [find_if] never answers [true]: the search
    visits every value and leaves their maximum in the captured variable. *)
Lemma find_if_st_extract_maximal_value (values : list uint8_t) (max_lanes : uint8_t) :
  std.find_if_st (fun value max_lanes => (false, N.max max_lanes value)) values max_lanes
  = (length values, fold_left N.max values max_lanes).
Proof.
  revert max_lanes. induction values as [|v rest IH]; intros m; simpl.
  - reflexivity.
  - now rewrite IH.
Qed.

Lemma getHighestConnectedLaneCount_fold {R : Type} `{RoadData R}
  (intersection : list R) (graph : NodeBasedDynamicGraph) :
  intersection_helpers.getHighestConnectedLaneCount intersection graph
  = fold_left N.max (map (lane_count_of graph) intersection) 0%N.
Proof.
  unfold intersection_helpers.getHighestConnectedLaneCount. cbv zeta.
  now rewrite find_if_st_extract_maximal_value.
Qed.

Lemma fold_left_max_ge (values : list N) (start : N) :
  (start <= fold_left N.max values start)%N
  /\ (forall v, In v values -> (v <= fold_left N.max values start)%N).
Proof.
  revert start. induction values as [|v rest IH]; intros start; simpl.
  - split; [lia|intros ? []].
  - destruct (IH (N.max start v)) as [Hstart Hrest]. split; [lia|].
    intros w [<-|Hw]; [lia|auto].
Qed.

Lemma fold_left_max_attained (values : list N) (start : N) :
  fold_left N.max values start = start \/ In (fold_left N.max values start) values.
Proof.
  revert start. induction values as [|v rest IH]; intros start; simpl.
  - now left.
  - destruct (IH (N.max start v)) as [Heq|Hin]; [|now right; right].
    rewrite Heq. destruct (N.max_spec start v) as [[_ ->]|[_ ->]]; auto.
Qed.

Example getHighestConnectedLaneCount_example :
  map (lane_count_of example_graph) example_view = [1; 3; 2]%N
  /\ intersection_helpers.getHighestConnectedLaneCount example_view example_graph = 3%N
  /\ intersection_helpers.getHighestConnectedLaneCount
       [view_at 10%N false 0%Q; view_at 11%N false 90%Q; view_at 12%N false 260%Q]
       example_graph = 3%N.
Proof. repeat split; reflexivity. Qed.

(** C5: on a non-empty intersection [getHighestConnectedLaneCount] returns
    the maximum of the lane counts the graph records for the connected
    roads: the count of one of them, and at least the count of each. The
    result is determined by the edge ids of the roads alone, so whether
    entry is allowed on a road plays no part. *)
Theorem getHighestConnectedLaneCount_maximum {R : Type} `{RoadData R}
  (intersection : list R) (graph : NodeBasedDynamicGraph) :
  intersection <> [] ->
  (exists road,
      In road intersection
      /\ intersection_helpers.getHighestConnectedLaneCount intersection graph
         = lane_count_of graph road)
  /\ (forall road,
         In road intersection ->
         (lane_count_of graph road
          <= intersection_helpers.getHighestConnectedLaneCount intersection graph)%N)
  /\ (forall other : list R,
         map (fun road => eid (view_shape (as_view road))) other
         = map (fun road => eid (view_shape (as_view road))) intersection ->
         intersection_helpers.getHighestConnectedLaneCount other graph
         = intersection_helpers.getHighestConnectedLaneCount intersection graph).
Proof.
  intros Hne. rewrite getHighestConnectedLaneCount_fold. repeat split.
  - destruct (fold_left_max_attained (map (lane_count_of graph) intersection) 0%N)
      as [Hzero|Hin].
    + destruct intersection as [|road rest]; [congruence|].
      exists road. split; [now left|]. rewrite Hzero.
      pose proof (proj2 (fold_left_max_ge (map (lane_count_of graph) (road :: rest)) 0%N)
                    (lane_count_of graph road) (or_introl eq_refl)) as Hle.
      rewrite Hzero in Hle. lia.
    + apply in_map_iff in Hin. destruct Hin as (road & Heq & Hin).
      exists road. split; [exact Hin|]. now rewrite Heq.
  - intros road Hin.
    apply (proj2 (fold_left_max_ge (map (lane_count_of graph) intersection) 0%N)).
    now apply in_map.
  - intros other Heids. rewrite getHighestConnectedLaneCount_fold. f_equal.
    unfold lane_count_of.
    rewrite <- (map_map (fun road => eid (view_shape (as_view road)))
                        (fun e => GetNumberOfLanes (road_classification (GetEdgeData graph e)))
                        other).
    rewrite <- (map_map (fun road => eid (view_shape (as_view road)))
                        (fun e => GetNumberOfLanes (road_classification (GetEdgeData graph e)))
                        intersection).
    now rewrite Heids.
Qed.

Lemma getHighestConnectedLaneCount_maximum_witness :
  (exists road,
      In road example_view
      /\ intersection_helpers.getHighestConnectedLaneCount example_view example_graph
         = lane_count_of example_graph road)
  /\ (forall road,
         In road example_view ->
         (lane_count_of example_graph road
          <= intersection_helpers.getHighestConnectedLaneCount example_view example_graph)%N)
  /\ (forall other : list IntersectionViewData,
         map (fun road => eid (view_shape (as_view road))) other
         = map (fun road => eid (view_shape (as_view road))) example_view ->
         intersection_helpers.getHighestConnectedLaneCount other example_graph
         = intersection_helpers.getHighestConnectedLaneCount example_view example_graph).
Proof.
  apply (getHighestConnectedLaneCount_maximum example_view example_graph).
  discriminate.
Defined.

(** ** Lane partition helpers *)

Section LaneFacts.
Import engine_guidance.
Variable w : N.

Lemma LaneID_modulus_pos : (0 < 2 ^ Z.of_N w)%Z.
Proof. apply Z.pow_pos_nonneg; lia. Qed.

Lemma to_LaneID_spec (z : Z) :
  Z.of_N (to_LaneID w z) = (z mod 2 ^ Z.of_N w)%Z
  /\ (0 <= Z.of_N (to_LaneID w z) < 2 ^ Z.of_N w)%Z.
Proof.
  pose proof LaneID_modulus_pos as Hpos.
  pose proof (Z.mod_pos_bound z _ Hpos) as Hbound.
  unfold to_LaneID. rewrite Z2N.id by lia. split; [reflexivity|exact Hbound].
Qed.

Lemma to_LaneID_small (z : Z) :
  (0 <= z < 2 ^ Z.of_N w)%Z -> to_LaneID w z = Z.to_N z.
Proof. intros Hz. unfold to_LaneID. now rewrite Z.mod_small. Qed.

(** Wrapping the sum first, as an unsigned [LaneID] at least as wide as
    [int] does, gives the same count. *)
Lemma to_LaneID_inner_wrap (total z : Z) :
  to_LaneID w (total - Z.of_N (to_LaneID w z)) = to_LaneID w (total - z).
Proof.
  unfold to_LaneID at 1 3. f_equal.
  rewrite (proj1 (to_LaneID_spec z)). now rewrite Zminus_mod_idemp_r.
Qed.

Lemma lane_total_le (i : IntermediateIntersection) :
  (lane_total w i <= N.of_nat (length (lane_description i)))%N.
Proof.
  pose proof LaneID_modulus_pos as Hpos.
  pose proof (proj1 (to_LaneID_spec (Z.of_nat (length (lane_description i))))) as Hspec.
  pose proof (Z.mod_le (Z.of_nat (length (lane_description i))) (2 ^ Z.of_N w)).
  fold (lane_total w i) in Hspec. lia.
Qed.

Lemma lane_total_fits (i : IntermediateIntersection) :
  (Z.of_nat (length (lane_description i)) < 2 ^ Z.of_N w)%Z ->
  lane_total w i = N.of_nat (length (lane_description i)).
Proof.
  intros Hfit. unfold lane_total. rewrite to_LaneID_small by lia. lia.
Qed.

Lemma numLanesToTheLeft_value (step : RouteStep) (first : IntermediateIntersection)
  (rest : list IntermediateIntersection) :
  intersections step = first :: rest ->
  numLanesToTheLeft w step
  = Returns (to_LaneID w (Z.of_N (lane_total w first)
                          - (Z.of_N (lanes_in_turn (lanes first))
                             + Z.of_N (first_lane_from_the_right (lanes first))))).
Proof. intros Hfront. unfold numLanesToTheLeft. now rewrite Hfront. Qed.

Lemma numLanesToTheRight_value (step : RouteStep) (first : IntermediateIntersection)
  (rest : list IntermediateIntersection) :
  intersections step = first :: rest ->
  numLanesToTheRight step = Returns (first_lane_from_the_right (lanes first)).
Proof. intros Hfront. unfold numLanesToTheRight. now rewrite Hfront. Qed.

Lemma lanesToTheLeft_value (step : RouteStep) (first : IntermediateIntersection)
  (rest : list IntermediateIntersection) (left : LaneID) :
  intersections step = first :: rest ->
  numLanesToTheLeft w step = Returns left ->
  lanesToTheLeft w step = Returns (make_iterator_range 0 (Z.of_N left)).
Proof.
  intros Hfront Hleft. unfold lanesToTheLeft. rewrite Hleft, Hfront. reflexivity.
Qed.

Lemma lanesToTheRight_value (step : RouteStep) (first : IntermediateIntersection)
  (rest : list IntermediateIntersection) :
  intersections step = first :: rest ->
  lanesToTheRight step
  = Returns (make_iterator_range
               (Z.of_nat (length (lane_description first))
                - Z.of_N (first_lane_from_the_right (lanes first)))
               (Z.of_nat (length (lane_description first)))).
Proof.
  intros Hfront. unfold lanesToTheRight.
  rewrite (numLanesToTheRight_value step first rest Hfront), Hfront. reflexivity.
Qed.

Lemma lanes_of_range_prefix {A : Type} (description : list A) (n : N) :
  (n <= N.of_nat (length description))%N ->
  lanes_of_range description (make_iterator_range 0 (Z.of_N n))
  = Returns (firstn (N.to_nat n) description).
Proof.
  intros Hn. unfold lanes_of_range, in_range, cend. simpl range_begin. simpl range_end.
  replace ((0 <=? 0)%Z && (0 <=? Z.of_N n)%Z
           && (Z.of_N n <=? Z.of_nat (length description))%Z) with true
    by (symmetry; rewrite !andb_true_iff, !Z.leb_le; lia).
  simpl skipn. f_equal. f_equal. lia.
Qed.

Lemma lanes_of_range_suffix {A : Type} (description : list A) (n : N) :
  (n <= N.of_nat (length description))%N ->
  lanes_of_range description
    (make_iterator_range (Z.of_nat (length description) - Z.of_N n)
                         (Z.of_nat (length description)))
  = Returns (skipn (length description - N.to_nat n) description).
Proof.
  intros Hn. unfold lanes_of_range, in_range, cend. simpl range_begin. simpl range_end.
  replace ((0 <=? Z.of_nat (length description) - Z.of_N n)%Z
           && (Z.of_nat (length description) - Z.of_N n <=? Z.of_nat (length description))%Z
           && (Z.of_nat (length description) <=? Z.of_nat (length description))%Z)
    with true by (symmetry; rewrite !andb_true_iff, !Z.leb_le; lia).
  f_equal.
  replace (Z.to_nat (Z.of_nat (length description) - Z.of_N n))
    with (length description - N.to_nat n) by lia.
  apply firstn_all2. rewrite length_skipn. lia.
Qed.

Lemma split_three {A : Type} (l : list A) (i j : nat) :
  i <= j ->
  l = firstn i l ++ firstn (j - i) (skipn i l) ++ skipn j l.
Proof.
  intros Hij.
  rewrite <- (firstn_skipn i l) at 1. f_equal.
  rewrite <- (firstn_skipn (j - i) (skipn i l)) at 1. f_equal.
  rewrite skipn_skipn. f_equal. lia.
Qed.

End LaneFacts.

Example lanes_example :
  engine_guidance.numLanesToTheLeft 8%N example_lane_step = Returns 2%N
  /\ engine_guidance.numLanesToTheRight example_lane_step = Returns 1%N
  /\ engine_guidance.lanesToTheLeft 8%N example_lane_step
     = Returns (engine_guidance.make_iterator_range 0 2)
  /\ engine_guidance.lanesToTheRight example_lane_step
     = Returns (engine_guidance.make_iterator_range 4 5)
  /\ engine_guidance.lanes_of_range example_lanes (engine_guidance.make_iterator_range 0 2)
     = Returns [1; 2]%N
  /\ engine_guidance.lanes_of_range example_lanes (engine_guidance.make_iterator_range 4 5)
     = Returns [8]%N.
Proof. repeat split; reflexivity. Qed.

(** In terms of the size of the description: the count of lanes to the
    left is the size less the two counts of the lane tuple, as a [LaneID]. *)
Lemma numLanesToTheLeft_of_size (w : N) (step : engine_guidance.RouteStep)
  (first : engine_guidance.IntermediateIntersection)
  (rest : list engine_guidance.IntermediateIntersection) :
  engine_guidance.intersections step = first :: rest ->
  engine_guidance.numLanesToTheLeft w step
  = Returns
      (engine_guidance.to_LaneID w
         (Z.of_nat (length (engine_guidance.lane_description first))
          - (Z.of_N (engine_guidance.lanes_in_turn (engine_guidance.lanes first))
             + Z.of_N (engine_guidance.first_lane_from_the_right
                         (engine_guidance.lanes first))))).
Proof.
  intros Hfront. rewrite (numLanesToTheLeft_value w step first rest Hfront). f_equal.
  unfold lane_total.
  rewrite (proj1 (to_LaneID_spec w (Z.of_nat (length (engine_guidance.lane_description
                                                         first))))).
  unfold engine_guidance.to_LaneID. now rewrite Zminus_mod_idemp_l.
Qed.

(** When the two counts of the lane tuple do not exceed the size of the
    description, the three counts add up to the size exactly when the
    count of lanes to the left fits [LaneID]. *)
Lemma lanes_add_up_iff (w : N) (step : engine_guidance.RouteStep)
  (first : engine_guidance.IntermediateIntersection)
  (rest : list engine_guidance.IntermediateIntersection) (left : engine_guidance.LaneID) :
  engine_guidance.intersections step = first :: rest ->
  (engine_guidance.lanes_in_turn (engine_guidance.lanes first)
   + engine_guidance.first_lane_from_the_right (engine_guidance.lanes first)
   <= N.of_nat (length (engine_guidance.lane_description first)))%N ->
  engine_guidance.numLanesToTheLeft w step = Returns left ->
  ((left + engine_guidance.first_lane_from_the_right (engine_guidance.lanes first)
    + engine_guidance.lanes_in_turn (engine_guidance.lanes first)
    = N.of_nat (length (engine_guidance.lane_description first)))%N
   <-> (Z.of_nat (length (engine_guidance.lane_description first))
        - (Z.of_N (engine_guidance.lanes_in_turn (engine_guidance.lanes first))
           + Z.of_N (engine_guidance.first_lane_from_the_right
                       (engine_guidance.lanes first)))
        < 2 ^ Z.of_N w)%Z).
Proof.
  intros Hfront Hwf Hleft.
  rewrite (numLanesToTheLeft_of_size w step first rest Hfront) in Hleft.
  injection Hleft as <-.
  destruct (to_LaneID_spec w
              (Z.of_nat (length (engine_guidance.lane_description first))
               - (Z.of_N (engine_guidance.lanes_in_turn (engine_guidance.lanes first))
                  + Z.of_N (engine_guidance.first_lane_from_the_right
                              (engine_guidance.lanes first)))))
    as [Hmod Hbound].
  split.
  - intros Hsum. lia.
  - intros Hfit. rewrite Z.mod_small in Hmod by lia. lia.
Qed.

(** C6 (as amended): for a step whose first intersection has a well-formed
    lane description (the lanes in the turn and the lanes right of it
    together do not exceed the total lane count) in which the count of
    lanes left of the turn, the total less those two counts, fits [LaneID],
    the lanes to the left, the lanes to the right and the lanes in the turn
    add up to the total lane count; [lanesToTheLeft] and [lanesToTheRight]
    return the prefix and the suffix of the description of those lengths,
    and the lanes between them, which neither exposes, are the lanes in the
    turn. *)
Theorem lanes_partition (w : N) (step : engine_guidance.RouteStep)
  (first : engine_guidance.IntermediateIntersection)
  (rest : list engine_guidance.IntermediateIntersection) :
  engine_guidance.intersections step = first :: rest ->
  (engine_guidance.lanes_in_turn (engine_guidance.lanes first)
   + engine_guidance.first_lane_from_the_right (engine_guidance.lanes first)
   <= N.of_nat (length (engine_guidance.lane_description first)))%N ->
  (Z.of_nat (length (engine_guidance.lane_description first))
   - (Z.of_N (engine_guidance.lanes_in_turn (engine_guidance.lanes first))
      + Z.of_N (engine_guidance.first_lane_from_the_right (engine_guidance.lanes first)))
   < 2 ^ Z.of_N w)%Z ->
  exists left right range_left range_right middle,
    engine_guidance.numLanesToTheLeft w step = Returns left
    /\ engine_guidance.numLanesToTheRight step = Returns right
    /\ (left + right + engine_guidance.lanes_in_turn (engine_guidance.lanes first)
        = N.of_nat (length (engine_guidance.lane_description first)))%N
    /\ engine_guidance.lanesToTheLeft w step = Returns range_left
    /\ engine_guidance.lanesToTheRight step = Returns range_right
    /\ engine_guidance.lanes_of_range (engine_guidance.lane_description first) range_left
       = Returns (firstn (N.to_nat left) (engine_guidance.lane_description first))
    /\ engine_guidance.lanes_of_range (engine_guidance.lane_description first) range_right
       = Returns (skipn (length (engine_guidance.lane_description first) - N.to_nat right)
                    (engine_guidance.lane_description first))
    /\ engine_guidance.lane_description first
       = firstn (N.to_nat left) (engine_guidance.lane_description first)
         ++ middle
         ++ skipn (length (engine_guidance.lane_description first) - N.to_nat right)
              (engine_guidance.lane_description first)
    /\ N.of_nat (length middle)
       = engine_guidance.lanes_in_turn (engine_guidance.lanes first).
Proof.
  intros Hfront Hwf Hfit.
  pose proof (numLanesToTheLeft_of_size w step first rest Hfront) as Hleft.
  pose proof (numLanesToTheRight_value step first rest Hfront) as Hright.
  pose proof (lanesToTheRight_value step first rest Hfront) as Hspan_right.
  pose proof (@split_three _ (engine_guidance.lane_description first)) as Hsplit.
  pose proof (@lanes_of_range_prefix _ (engine_guidance.lane_description first)) as Hprefix.
  pose proof (@lanes_of_range_suffix _ (engine_guidance.lane_description first)) as Hsuffix.
  revert Hwf Hfit Hleft Hright Hspan_right Hsplit Hprefix Hsuffix.
  generalize (engine_guidance.lane_description first) as description.
  generalize (engine_guidance.lanes_in_turn (engine_guidance.lanes first)) as in_turn.
  generalize (engine_guidance.first_lane_from_the_right (engine_guidance.lanes first))
    as right.
  intros right in_turn description
         Hwf Hfit Hleft Hright Hspan_right Hsplit Hprefix Hsuffix.
  rewrite to_LaneID_small in Hleft by lia.
  replace (Z.to_N (Z.of_nat (length description) - (Z.of_N in_turn + Z.of_N right)))
    with (N.of_nat (length description) - (in_turn + right))%N in Hleft by lia.
  set (left := (N.of_nat (length description) - (in_turn + right))%N) in *.
  exists left, right,
    (engine_guidance.make_iterator_range 0 (Z.of_N left)),
    (engine_guidance.make_iterator_range
       (Z.of_nat (length description) - Z.of_N right) (Z.of_nat (length description))),
    (firstn (length description - N.to_nat right - N.to_nat left)
            (skipn (N.to_nat left) description)).
  split; [exact Hleft|].
  split; [exact Hright|].
  split; [lia|].
  split; [exact (lanesToTheLeft_value w step first rest left Hfront Hleft)|].
  split; [exact Hspan_right|].
  split; [apply Hprefix; lia|].
  split; [apply Hsuffix; lia|].
  split; [apply Hsplit; lia|].
  rewrite length_firstn, length_skipn. lia.
Qed.

Lemma lanes_partition_witness :
  exists left right range_left range_right middle,
    engine_guidance.numLanesToTheLeft 8%N example_lane_step = Returns left
    /\ engine_guidance.numLanesToTheRight example_lane_step = Returns right
    /\ (left + right + 2 = N.of_nat (length example_lanes))%N
    /\ engine_guidance.lanesToTheLeft 8%N example_lane_step = Returns range_left
    /\ engine_guidance.lanesToTheRight example_lane_step = Returns range_right
    /\ engine_guidance.lanes_of_range example_lanes range_left
       = Returns (firstn (N.to_nat left) example_lanes)
    /\ engine_guidance.lanes_of_range example_lanes range_right
       = Returns (skipn (length example_lanes - N.to_nat right) example_lanes)
    /\ example_lanes
       = firstn (N.to_nat left) example_lanes
         ++ middle ++ skipn (length example_lanes - N.to_nat right) example_lanes
    /\ N.of_nat (length middle) = 2%N.
Proof.
  apply (lanes_partition 8%N example_lane_step
           (engine_guidance.mkIntermediateIntersection
              (engine_guidance.mkLaneTuple 2%N 1%N) example_lanes) []).
  - reflexivity.
  - vm_compute. discriminate.
  - reflexivity.
Defined.

(** Without the proviso the counts need not add up: with an 8-bit [LaneID]
    and 260 lanes, one in the turn and one right of it, the total is read
    as 4, two lanes are counted to the left, and 2 + 1 + 1 is not 260. *)
Lemma lanes_partition_counterexample : ~ lanes_add_up 8%N wide_step.
Proof.
  intros Hclaim.
  destruct (Hclaim (engine_guidance.mkIntermediateIntersection
                      (engine_guidance.mkLaneTuple 1%N 1%N) (repeat 1%N 260)) []
                   eq_refl) as (left & right & Hleft & Hright & Hsum).
  - vm_compute. discriminate.
  - vm_compute in Hleft. injection Hleft as <-.
    vm_compute in Hright. injection Hright as <-.
    vm_compute in Hsum. discriminate.
Qed.

Example lanes_wide_examples :
  engine_guidance.numLanesToTheLeft 8%N wide_step = Returns 2%N
  /\ engine_guidance.numLanesToTheLeft 8%N (step_with_lanes (repeat 1%N 260) 100%N 60%N)
     = Returns 100%N
  /\ engine_guidance.numLanesToTheLeft 8%N (step_with_lanes (repeat 1%N 260) 3%N 3%N)
     = Returns 254%N.
Proof. repeat split; reflexivity. Qed.

Lemma mod_shift (z k m : Z) : (0 <= z + k * m < m)%Z -> (z mod m = z + k * m)%Z.
Proof.
  intros Hrange. rewrite <- (Z_mod_plus_full z k m). now apply Z.mod_small.
Qed.

Example numLanesToTheLeft_wrap_examples :
  engine_guidance.numLanesToTheLeft 8%N (step_with_lanes [1; 2; 4]%N 3%N 1%N)
  = Returns 255%N
  /\ engine_guidance.lanesToTheLeft 8%N (step_with_lanes [1; 2; 4]%N 3%N 1%N)
     = Returns (engine_guidance.make_iterator_range 0 255)
  /\ engine_guidance.lanes_of_range [1; 2; 4]%N (engine_guidance.make_iterator_range 0 255)
     = Undefined
  /\ engine_guidance.numLanesToTheLeft 8%N overclaiming_step = Returns 3%N
  /\ engine_guidance.numLanesToTheLeft 8%N (step_with_lanes [] 255%N 255%N)
     = Returns 2%N.
Proof. repeat split; reflexivity. Qed.

(** C10 (as amended): [numLanesToTheLeft] computes
    total - (lanes_in_turn + first_lane_from_the_right) in unsigned
    [LaneID] arithmetic. Whenever the two counts together exceed the size
    of the lane description, the result is not the negative difference but
    that difference plus a multiple of 2^w, and the range [lanesToTheLeft]
    builds from it is out of range, unless the sum of the two counts lies
    between 2^w and 2^w plus the size: there the wrapped count is at most
    the size and the range lies within the description. Only if the two
    counts do not exceed the total does the result equal the exact
    difference. *)
Theorem numLanesToTheLeft_unsigned (w : N) (step : engine_guidance.RouteStep)
  (first : engine_guidance.IntermediateIntersection)
  (rest : list engine_guidance.IntermediateIntersection) :
  engine_guidance.intersections step = first :: rest ->
  (Z.of_N (engine_guidance.lanes_in_turn (engine_guidance.lanes first)) < 2 ^ Z.of_N w)%Z ->
  (Z.of_N (engine_guidance.first_lane_from_the_right (engine_guidance.lanes first))
   < 2 ^ Z.of_N w)%Z ->
  exists left span,
    engine_guidance.numLanesToTheLeft w step = Returns left
    /\ engine_guidance.lanesToTheLeft w step = Returns span
    /\ engine_guidance.range_begin span = 0%Z
    /\ engine_guidance.range_end span = Z.of_N left
    /\ (0 <= Z.of_N left < 2 ^ Z.of_N w)%Z
    /\ Z.of_N left
       = ((Z.of_N (lane_total w first) - claimed_lanes first) mod 2 ^ Z.of_N w)%Z
    /\ Z.of_N left = ((description_size first - claimed_lanes first) mod 2 ^ Z.of_N w)%Z
    /\ (Z.of_N (lane_total w first) <= description_size first)%Z
    /\ ((description_size first < claimed_lanes first)%Z ->
        exists k,
          (1 <= k <= 2)%Z
          /\ Z.of_N left
             = (description_size first - claimed_lanes first + k * 2 ^ Z.of_N w)%Z)
    /\ ((Z.of_N (lane_total w first) < claimed_lanes first)%Z ->
        exists k,
          (1 <= k <= 2)%Z
          /\ Z.of_N left
             = (Z.of_N (lane_total w first) - claimed_lanes first + k * 2 ^ Z.of_N w)%Z)
    /\ ((description_size first < claimed_lanes first)%Z ->
        (engine_guidance.in_range (engine_guidance.lane_description first) span = false
         <-> ~ (2 ^ Z.of_N w <= claimed_lanes first
                <= 2 ^ Z.of_N w + description_size first)%Z))
    /\ (Z.of_N left = (Z.of_N (lane_total w first) - claimed_lanes first)%Z
        <-> (claimed_lanes first <= Z.of_N (lane_total w first))%Z)
    /\ (Z.of_N left = (description_size first - claimed_lanes first)%Z ->
        (claimed_lanes first <= description_size first)%Z).
Proof.
  intros Hfront Hin_turn Hright.
  pose proof (LaneID_modulus_pos w) as Hpos.
  assert (Hrange : (0 <= Z.of_N (lane_total w first) < 2 ^ Z.of_N w)%Z)
    by apply to_LaneID_spec.
  pose proof (numLanesToTheLeft_value w step first rest Hfront) as Hleft.
  assert (Htotal : Z.of_N (lane_total w first)
                   = (Z.of_nat (length (engine_guidance.lane_description first))
                      mod 2 ^ Z.of_N w)%Z)
    by apply to_LaneID_spec.
  pose proof (lane_total_le w first) as Hle.
  unfold description_size, claimed_lanes.
  revert Hin_turn Hright Hrange Hleft Htotal Hle.
  generalize (lane_total w first) as total.
  generalize (engine_guidance.lane_description first) as description.
  generalize (engine_guidance.lanes_in_turn (engine_guidance.lanes first)) as in_turn.
  generalize (engine_guidance.first_lane_from_the_right (engine_guidance.lanes first))
    as right.
  intros right in_turn description total Hin_turn Hright Hrange Hleft Htotal Hle.
  set (diff := (Z.of_N total - (Z.of_N in_turn + Z.of_N right))%Z) in *.
  set (short := (Z.of_nat (length description) - (Z.of_N in_turn + Z.of_N right))%Z).
  set (m := (2 ^ Z.of_N w)%Z) in *.
  destruct (to_LaneID_spec w diff) as [Hmod Hbound]. fold m in Hmod, Hbound.
  assert (Hsize : (diff mod m = short mod m)%Z)
    by (unfold diff, short; rewrite Htotal; apply Zminus_mod_idemp_l).
  assert (Hwrap : forall z, (- (2 * m) < z < 0)%Z ->
                  (z mod m = z + 1 * m /\ 0 <= z + m)%Z
                  \/ (z mod m = z + 2 * m /\ z + m < 0)%Z).
  { intros z Hz. destruct (Z_lt_le_dec (z + m) 0) as [Hlow|Hhigh].
    - right. split; [apply mod_shift; lia|lia].
    - left. split; [apply mod_shift; lia|lia]. }
  exists (engine_guidance.to_LaneID w diff),
    (engine_guidance.make_iterator_range 0 (Z.of_N (engine_guidance.to_LaneID w diff))).
  split; [exact Hleft|].
  split; [exact (lanesToTheLeft_value w step first rest _ Hfront Hleft)|].
  split; [reflexivity|]. split; [reflexivity|].
  split; [exact Hbound|]. split; [exact Hmod|].
  rewrite Hmod.
  split; [exact Hsize|]. split; [lia|]. split; [|split; [|split; [|split]]].
  - intros Hover. rewrite Hsize.
    destruct (Hwrap short) as [[Hk _]|[Hk _]]; [unfold short; lia| |].
    + exists 1%Z. split; [lia|exact Hk].
    + exists 2%Z. split; [lia|exact Hk].
  - intros Hover. destruct (Hwrap diff) as [[Hk _]|[Hk _]]; [unfold diff; lia| |].
    + exists 1%Z. split; [lia|exact Hk].
    + exists 2%Z. split; [lia|exact Hk].
  - intros Hover. unfold engine_guidance.in_range, cend.
    cbn [engine_guidance.range_begin engine_guidance.range_end].
    rewrite Hsize.
    destruct (Hwrap short) as [[Hk Hge]|[Hk Hlt]]; [unfold short; lia| |]; rewrite Hk;
      rewrite !andb_false_iff, !Z.leb_gt; unfold short in *; lia.
  - split.
    + intros Hexact.
      destruct (Z_lt_le_dec diff 0) as [Hneg|Hnonneg]; [|unfold diff in *; lia].
      destruct (Hwrap diff) as [[Hk _]|[Hk _]]; unfold diff in *; lia.
    + intros Hwf. apply Z.mod_small. unfold diff. lia.
  - rewrite Hsize. intros Hexact.
    pose proof (Z.mod_pos_bound short m Hpos) as Hnonneg. unfold short in *. lia.
Qed.

Lemma numLanesToTheLeft_unsigned_witness :
  exists left span,
    engine_guidance.numLanesToTheLeft 8%N overclaiming_step = Returns left
    /\ engine_guidance.lanesToTheLeft 8%N overclaiming_step = Returns span
    /\ engine_guidance.range_begin span = 0%Z
    /\ engine_guidance.range_end span = Z.of_N left
    /\ (0 <= Z.of_N left < 2 ^ 8)%Z
    /\ Z.of_N left = ((3 - (255 + 1)) mod 2 ^ 8)%Z
    /\ Z.of_N left = ((3 - (255 + 1)) mod 2 ^ 8)%Z
    /\ (3 <= 3)%Z
    /\ ((3 < 255 + 1)%Z ->
        exists k, (1 <= k <= 2)%Z /\ Z.of_N left = (3 - (255 + 1) + k * 2 ^ 8)%Z)
    /\ ((3 < 255 + 1)%Z ->
        exists k, (1 <= k <= 2)%Z /\ Z.of_N left = (3 - (255 + 1) + k * 2 ^ 8)%Z)
    /\ ((3 < 255 + 1)%Z ->
        (engine_guidance.in_range [1; 2; 4]%N span = false
         <-> ~ (2 ^ 8 <= 255 + 1 <= 2 ^ 8 + 3)%Z))
    /\ (Z.of_N left = (3 - (255 + 1))%Z <-> (255 + 1 <= 3)%Z)
    /\ (Z.of_N left = (3 - (255 + 1))%Z -> (255 + 1 <= 3)%Z).
Proof.
  apply (numLanesToTheLeft_unsigned 8%N overclaiming_step
           (engine_guidance.mkIntermediateIntersection
              (engine_guidance.mkLaneTuple 255%N 1%N) [1; 2; 4]%N) []).
  - reflexivity.
  - reflexivity.
  - reflexivity.
Defined.

(** With an 8-bit [LaneID], three lanes and a lane tuple of 255 and 1 the
    counts exceed the size of the description, yet the wrapped count is 3
    and the range of [lanesToTheLeft] lies within the description. *)
Lemma numLanesToTheLeft_unsigned_counterexample :
  ~ left_span_out_of_range 8%N overclaiming_step.
Proof.
  intros Hclaim.
  destruct (Hclaim (engine_guidance.mkIntermediateIntersection
                      (engine_guidance.mkLaneTuple 255%N 1%N) [1; 2; 4]%N) []
                   eq_refl) as (r & Hspan & Hout).
  - reflexivity.
  - vm_compute in Hspan. injection Hspan as <-. discriminate.
Qed.

(** The same happens at every width of [LaneID]: a lane tuple of 2^w - 1
    and 1 over an empty description wraps to the count 0. *)
Lemma left_span_in_range_at_any_width (w : N) :
  ~ left_span_out_of_range w (step_with_lanes [] (2 ^ w - 1)%N 1%N).
Proof.
  intros Hclaim.
  pose proof (LaneID_modulus_pos w) as Hpos.
  assert (Hpow : Z.of_N (2 ^ w) = (2 ^ Z.of_N w)%Z) by (rewrite N2Z.inj_pow; reflexivity).
  set (first := engine_guidance.mkIntermediateIntersection
                  (engine_guidance.mkLaneTuple (2 ^ w - 1)%N 1%N) []).
  assert (Hfront : engine_guidance.intersections (step_with_lanes [] (2 ^ w - 1)%N 1%N)
                   = [first]) by reflexivity.
  assert (Hleft : engine_guidance.numLanesToTheLeft
                    w (step_with_lanes [] (2 ^ w - 1)%N 1%N) = Returns 0%N).
  { rewrite (numLanesToTheLeft_value w _ first [] Hfront). f_equal.
    unfold lane_total, first.
    cbn [engine_guidance.lane_description engine_guidance.lanes length
         engine_guidance.lanes_in_turn engine_guidance.first_lane_from_the_right].
    unfold engine_guidance.to_LaneID. rewrite Z.mod_0_l by lia.
    replace (Z.of_N (Z.to_N 0) - (Z.of_N (2 ^ w - 1) + Z.of_N 1))%Z
      with (0 + (-1) * 2 ^ Z.of_N w)%Z by lia.
    rewrite Z_mod_plus_full, Z.mod_0_l by lia. reflexivity. }
  destruct (Hclaim first [] Hfront) as (r & Hspan & Hout).
  - unfold first.
    cbn [engine_guidance.lane_description engine_guidance.lanes length
         engine_guidance.lanes_in_turn engine_guidance.first_lane_from_the_right]. lia.
  - rewrite (lanesToTheLeft_value w _ first [] 0%N Hfront Hleft) in Hspan.
    injection Hspan as <-. discriminate.
Qed.

(** ** forEachRoundabout *)

Lemma find_if_spec {A : Type} (pred : A -> bool) (l : list A) :
  std.find_if pred l <= length l
  /\ (forall k x, k < std.find_if pred l -> nth_error l k = Some x -> pred x = false)
  /\ (std.find_if pred l < length l ->
      exists x, nth_error l (std.find_if pred l) = Some x /\ pred x = true).
Proof.
  induction l as [|y rest (Hle & Hbefore & Hat)]; simpl.
  - repeat split; [lia|intros; lia|intros; lia].
  - destruct (pred y) eqn:Hy.
    + repeat split; [lia|intros; lia|]. intros _. exists y. auto.
    + repeat split; [lia| |].
      * intros [|k] x Hk Hx; simpl in Hx; [congruence|]. apply (Hbefore k); [lia|exact Hx].
      * intros Hlt. simpl. apply Hat. lia.
Qed.

Lemma find_if_from_spec {A : Type} (pred : A -> bool) (l : list A) (first : nat) :
  first <= length l ->
  first <= std.find_if_from pred l first <= length l
  /\ (forall k x, first <= k < std.find_if_from pred l first ->
                  nth_error l k = Some x -> pred x = false)
  /\ (std.find_if_from pred l first < length l ->
      exists x, nth_error l (std.find_if_from pred l first) = Some x /\ pred x = true).
Proof.
  intros Hfirst. unfold std.find_if_from.
  destruct (find_if_spec pred (skipn first l)) as (Hle & Hbefore & Hat).
  rewrite length_skipn in Hle, Hat.
  repeat split; try lia.
  - intros k x Hk Hx. apply (Hbefore (k - first)); [lia|].
    rewrite nth_error_skipn. now replace (first + (k - first)) with k by lia.
  - intros Hlt. destruct Hat as (x & Hx & Hp); [lia|].
    exists x. split; [|exact Hp]. now rewrite nth_error_skipn in Hx.
Qed.

Section RoundaboutFacts.
Import engine_guidance.
Variables entersRoundabout leavesRoundabout : TurnInstruction -> bool.

Let enters (step : RouteStep) : bool := entersRoundabout (instruction (maneuver step)).
Let leaves (step : RouteStep) : bool := leavesRoundabout (instruction (maneuver step)).
Let record (seen : list (nat * nat)) (range : nat * nat) : list (nat * nat) :=
  seen ++ [range].

(** The recording functor appends to what it has seen. *)
Lemma forEachRoundabout_loop_record (steps : list RouteStep) (fuel : nat) :
  forall first seen,
    forEachRoundabout_loop entersRoundabout leavesRoundabout record steps fuel first seen
    = seen ++ forEachRoundabout_loop entersRoundabout leavesRoundabout record
                steps fuel first [].
Proof.
  induction fuel as [|fuel IH]; intros first seen; simpl.
  - now rewrite app_nil_r.
  - destruct (first =? cend steps); [now rewrite app_nil_r|].
    destruct (_ || _); [now rewrite app_nil_r|].
    rewrite IH. rewrite (IH _ (record [] _)). unfold record. simpl.
    now rewrite <- app_assoc.
Qed.

(** Any functor is called on the recorded ranges, in their order. *)
Lemma forEachRoundabout_loop_fold {Fn : Type} (call : Fn -> nat * nat -> Fn)
  (steps : list RouteStep) (fuel : nat) :
  forall first fn,
    forEachRoundabout_loop entersRoundabout leavesRoundabout call steps fuel first fn
    = fold_left call
        (forEachRoundabout_loop entersRoundabout leavesRoundabout record steps fuel first [])
        fn.
Proof.
  induction fuel as [|fuel IH]; intros first fn; simpl.
  - reflexivity.
  - destruct (first =? cend steps); [reflexivity|].
    destruct (_ || _); [reflexivity|].
    rewrite forEachRoundabout_loop_record. unfold record at 1. simpl. apply IH.
Qed.

Lemma not_enters_at_end (steps : list RouteStep) (k : nat) :
  length steps <= k -> ~ enters_at entersRoundabout steps k.
Proof.
  intros Hk (step & Hnth & _).
  apply nth_error_None in Hk. congruence.
Qed.

Lemma not_leaves_at_end (steps : list RouteStep) (k : nat) :
  length steps <= k -> ~ leaves_at leavesRoundabout steps k.
Proof.
  intros Hk (step & Hnth & _).
  apply nth_error_None in Hk. congruence.
Qed.

(** With fuel for the steps that remain, the recorded ranges are the
    matched pairs from [first] on, and they follow one another. *)
Lemma forEachRoundabout_loop_matched (steps : list RouteStep) (fuel : nat) :
  forall first,
    first <= length steps ->
    length steps - first < fuel ->
    matched_pairs entersRoundabout leavesRoundabout steps first
      (forEachRoundabout_loop entersRoundabout leavesRoundabout record steps fuel first [])
    /\ forward_disjoint first (length steps)
         (forEachRoundabout_loop entersRoundabout leavesRoundabout record steps fuel first []).
Proof.
  induction fuel as [|fuel IH]; intros first Hfirst Hfuel; [lia|].
  simpl. unfold cend.
  destruct (Nat.eqb_spec first (length steps)) as [Hend|Hmore].
  - split; [|exact I]. apply matched_no_enter.
    intros k Hk. apply not_enters_at_end. lia.
  - destruct (find_if_from_spec enters steps first Hfirst)
      as (Henter_range & Hno_enter & Henter).
    fold enters.
    set (enter := std.find_if_from enters steps first) in *.
    destruct (find_if_from_spec leaves steps enter (proj2 Henter_range))
      as (Hleave_range & Hno_leave & Hleave).
    fold leaves.
    set (leave := std.find_if_from leaves steps enter) in *.
    assert (Hno_enter' : forall k, first <= k < enter ->
                                   ~ enters_at entersRoundabout steps k).
    { intros k Hk (step & Hnth & Htrue).
      pose proof (Hno_enter k step Hk Hnth) as Hfalse. unfold enters in Hfalse.
      congruence. }
    assert (Hno_leave' : forall k, enter <= k < leave ->
                                   ~ leaves_at leavesRoundabout steps k).
    { intros k Hk (step & Hnth & Htrue).
      pose proof (Hno_leave k step Hk Hnth) as Hfalse. unfold leaves in Hfalse.
      congruence. }
    destruct (Nat.eqb_spec enter (length steps)) as [Henter_end|Henter_in]; simpl.
    + split; [|exact I]. apply matched_no_enter. intros k Hk.
      destruct (Nat.lt_ge_cases k enter); [apply Hno_enter'; lia|].
      apply not_enters_at_end. lia.
    + assert (Hfirst_enter : first_from (enters_at entersRoundabout steps) first enter).
      { split; [lia|]. split; [|exact Hno_enter']. apply Henter. lia. }
      destruct (Nat.eqb_spec leave (length steps)) as [Hleave_end|Hleave_in].
      * split; [|exact I]. apply matched_no_leave with (enter := enter); [assumption|].
        intros k Hk. destruct (Nat.lt_ge_cases k leave); [apply Hno_leave'; lia|].
        apply not_leaves_at_end. lia.
      * rewrite forEachRoundabout_loop_record. unfold record at 1 3. simpl.
        destruct (IH (S leave)) as [Hrest Hdisjoint]; [lia|lia|].
        split.
        -- apply matched_pair; [assumption| |exact Hrest].
           split; [lia|]. split; [|exact Hno_leave']. apply Hleave. lia.
        -- repeat split; try lia. exact Hdisjoint.
Qed.

End RoundaboutFacts.

Lemma first_from_unique {P : nat -> Prop} {from i j : nat} :
  first_from P from i -> first_from P from j -> i = j.
Proof.
  intros (Hi & HPi & Hbefore_i) (Hj & HPj & Hbefore_j).
  destruct (Nat.lt_trichotomy i j) as [Hlt|[Heq|Hgt]]; [|exact Heq|].
  - exfalso. apply (Hbefore_j i); [lia|exact HPi].
  - exfalso. apply (Hbefore_i j); [lia|exact HPj].
Qed.

(** The matched pairs of a scan are determined by the steps. *)
Lemma matched_pairs_unique (entersRoundabout leavesRoundabout : TurnInstruction -> bool)
  (steps : list engine_guidance.RouteStep) (from : nat) (ranges ranges' : list (nat * nat)) :
  matched_pairs entersRoundabout leavesRoundabout steps from ranges ->
  matched_pairs entersRoundabout leavesRoundabout steps from ranges' ->
  ranges = ranges'.
Proof.
  intros Hscan. revert ranges'.
  induction Hscan as [from Hnone|from enter Henter Hnone
                      |from enter leave ranges Henter Hleave Hrest IH];
    intros ranges' Hscan'; inversion Hscan' as [from' Hnone'|from' enter' Henter' Hnone'
                                               |from' enter' leave' rest' Henter' Hleave' Hrest'];
    subst; try reflexivity.
  - exfalso. destruct Henter' as (Hge & Hat & _). exact (Hnone enter' Hge Hat).
  - exfalso. rewrite (first_from_unique Henter Henter') in Hnone.
    destruct Hleave' as (Hge & Hat & _). exact (Hnone leave' Hge Hat).
  - exfalso. destruct Henter as (Hge & Hat & _). exact (Hnone' enter Hge Hat).
  - exfalso. rewrite <- (first_from_unique Henter Henter') in Hnone'.
    destruct Hleave as (Hge & Hat & _). exact (Hnone' leave Hge Hat).
  - pose proof (first_from_unique Henter Henter') as <-.
    pose proof (first_from_unique Hleave Hleave') as <-.
    f_equal. apply IH. exact Hrest'.
Qed.

Example forEachRoundabout_examples :
  engine_guidance.roundabouts enters_type_1 leaves_type_2
    (map step_of_type [0; 1; 0; 2; 0]%N) = [(1, 3)]
  /\ engine_guidance.roundabouts enters_type_1 leaves_type_2
       (map step_of_type [0; 1; 0]%N) = []
  /\ engine_guidance.roundabouts enters_type_1 leaves_type_2
       (map step_of_type [0; 1; 2; 1; 2; 0]%N) = [(1, 2); (3, 4)]
  /\ engine_guidance.roundabouts enters_type_1 leaves_type_2
       (map step_of_type [2; 0; 1; 2; 1]%N) = [(2, 3)]
  /\ engine_guidance.forEachRoundabout enters_type_1 leaves_type_2
       (fun count range => count + (snd range - fst range))
       (map step_of_type [0; 1; 0; 2; 1; 0; 0; 2]%N) 0 = 5.
Proof. repeat split; reflexivity. Qed.

(** One iteration of the loop. *)
Lemma forEachRoundabout_loop_unfold
  (entersRoundabout leavesRoundabout : TurnInstruction -> bool)
  {Fn : Type} (call : Fn -> nat * nat -> Fn)
  (steps : list engine_guidance.RouteStep) (fuel first : nat) (fn : Fn) :
  engine_guidance.forEachRoundabout_loop entersRoundabout leavesRoundabout call
    steps (S fuel) first fn
  = if first =? cend steps then fn
    else
      let enter :=
        std.find_if_from
          (fun step => entersRoundabout
                         (engine_guidance.instruction (engine_guidance.maneuver step)))
          steps first in
      let leave :=
        std.find_if_from
          (fun step => leavesRoundabout
                         (engine_guidance.instruction (engine_guidance.maneuver step)))
          steps enter in
      if (enter =? cend steps) || (leave =? cend steps) then fn
      else engine_guidance.forEachRoundabout_loop entersRoundabout leavesRoundabout call
             steps fuel (S leave) (call fn (enter, leave)).
Proof. reflexivity. Qed.

(** Running one iteration on a literal list of steps: unfold the
    iteration and the two searches, then, once the readings of the steps
    are rewritten, evaluate the tests. *)
Ltac roundabout_step :=
  rewrite forEachRoundabout_loop_unfold; cbv zeta;
  unfold std.find_if_from, cend; cbn [skipn std.find_if length Nat.add].
Ltac roundabout_eval :=
  cbn [skipn std.find_if length Nat.add Nat.eqb orb app].

(** C4: [forEachRoundabout] calls its functor once for each matched
    enter/leave pair of the step sequence, in forward order: the recorded
    ranges are the matched pairs of the scan from the first step (first
    enter, then first leave from there, resuming right after the leave,
    stopping for good when an enter or its leave is missing), these closed
    ranges follow one another without overlap, and any functor is folded
    over them. So [A, enter, inside, leave, B] gives the one range from
    enter to leave, [A, enter, B] gives none, and
    [A, enter1, leave1, enter2, leave2, B] gives the two ranges in order. *)
Theorem forEachRoundabout_matched_pairs
  (entersRoundabout leavesRoundabout : TurnInstruction -> bool) :
  (forall (Fn : Type) (call : Fn -> nat * nat -> Fn)
          (steps : list engine_guidance.RouteStep) (fn : Fn),
      engine_guidance.forEachRoundabout entersRoundabout leavesRoundabout call steps fn
      = fold_left call
          (engine_guidance.roundabouts entersRoundabout leavesRoundabout steps) fn)
  /\ (forall steps : list engine_guidance.RouteStep,
         matched_pairs entersRoundabout leavesRoundabout steps 0
           (engine_guidance.roundabouts entersRoundabout leavesRoundabout steps)
         /\ (forall ranges,
                matched_pairs entersRoundabout leavesRoundabout steps 0 ranges ->
                ranges = engine_guidance.roundabouts entersRoundabout leavesRoundabout steps)
         /\ forward_disjoint 0 (length steps)
              (engine_guidance.roundabouts entersRoundabout leavesRoundabout steps))
  /\ (forall A enter inside leave B : engine_guidance.RouteStep,
         entersRoundabout (engine_guidance.instruction (engine_guidance.maneuver A)) = false ->
         entersRoundabout (engine_guidance.instruction (engine_guidance.maneuver enter)) = true ->
         leavesRoundabout (engine_guidance.instruction (engine_guidance.maneuver enter)) = false ->
         leavesRoundabout (engine_guidance.instruction (engine_guidance.maneuver inside)) = false ->
         leavesRoundabout (engine_guidance.instruction (engine_guidance.maneuver leave)) = true ->
         entersRoundabout (engine_guidance.instruction (engine_guidance.maneuver B)) = false ->
         engine_guidance.roundabouts entersRoundabout leavesRoundabout
           [A; enter; inside; leave; B] = [(1, 3)])
  /\ (forall A enter B : engine_guidance.RouteStep,
         entersRoundabout (engine_guidance.instruction (engine_guidance.maneuver A)) = false ->
         entersRoundabout (engine_guidance.instruction (engine_guidance.maneuver enter)) = true ->
         leavesRoundabout (engine_guidance.instruction (engine_guidance.maneuver enter)) = false ->
         leavesRoundabout (engine_guidance.instruction (engine_guidance.maneuver B)) = false ->
         engine_guidance.roundabouts entersRoundabout leavesRoundabout [A; enter; B] = [])
  /\ (forall A enter1 leave1 enter2 leave2 B : engine_guidance.RouteStep,
         entersRoundabout (engine_guidance.instruction (engine_guidance.maneuver A)) = false ->
         entersRoundabout (engine_guidance.instruction (engine_guidance.maneuver enter1)) = true ->
         leavesRoundabout (engine_guidance.instruction (engine_guidance.maneuver enter1)) = false ->
         leavesRoundabout (engine_guidance.instruction (engine_guidance.maneuver leave1)) = true ->
         entersRoundabout (engine_guidance.instruction (engine_guidance.maneuver enter2)) = true ->
         leavesRoundabout (engine_guidance.instruction (engine_guidance.maneuver enter2)) = false ->
         leavesRoundabout (engine_guidance.instruction (engine_guidance.maneuver leave2)) = true ->
         entersRoundabout (engine_guidance.instruction (engine_guidance.maneuver B)) = false ->
         engine_guidance.roundabouts entersRoundabout leavesRoundabout
           [A; enter1; leave1; enter2; leave2; B] = [(1, 2); (3, 4)]).
Proof.
  split; [|split; [|split; [|split]]].
  - intros Fn call steps fn. apply forEachRoundabout_loop_fold.
  - intros steps.
    destruct (forEachRoundabout_loop_matched entersRoundabout leavesRoundabout
                steps (S (length steps)) 0) as [Hmatched Hdisjoint]; [lia|lia|].
    split; [exact Hmatched|]. split; [|exact Hdisjoint].
    intros ranges Hranges.
    exact (matched_pairs_unique _ _ _ _ _ _ Hranges Hmatched).
  - intros A enter inside leave B HA He Hel Hil Hl HB.
    unfold engine_guidance.roundabouts, engine_guidance.forEachRoundabout.
    cbn [length].
    do 2 (roundabout_step;
          repeat (progress rewrite ?HA, ?He, ?Hel, ?Hil, ?Hl, ?HB; roundabout_eval)).
    reflexivity.
  - intros A enter B HA He Hel HB.
    unfold engine_guidance.roundabouts, engine_guidance.forEachRoundabout.
    cbn [length].
    roundabout_step; repeat (progress rewrite ?HA, ?He, ?Hel, ?HB; roundabout_eval).
    reflexivity.
  - intros A enter1 leave1 enter2 leave2 B HA He1 Hel1 Hl1 He2 Hel2 Hl2 HB.
    unfold engine_guidance.roundabouts, engine_guidance.forEachRoundabout.
    cbn [length].
    do 3 (roundabout_step;
          repeat (progress rewrite ?HA, ?He1, ?Hel1, ?Hl1, ?He2, ?Hel2, ?Hl2, ?HB;
                  roundabout_eval)).
    reflexivity.
Qed.

Lemma forEachRoundabout_matched_pairs_witness :
  engine_guidance.roundabouts enters_type_1 leaves_type_2
    [step_of_type 0%N; step_of_type 1%N; step_of_type 0%N; step_of_type 2%N;
     step_of_type 0%N] = [(1, 3)]
  /\ engine_guidance.roundabouts enters_type_1 leaves_type_2
       [step_of_type 0%N; step_of_type 1%N; step_of_type 0%N] = []
  /\ engine_guidance.roundabouts enters_type_1 leaves_type_2
       [step_of_type 0%N; step_of_type 1%N; step_of_type 2%N; step_of_type 1%N;
        step_of_type 2%N; step_of_type 0%N] = [(1, 2); (3, 4)].
Proof.
  destruct (forEachRoundabout_matched_pairs enters_type_1 leaves_type_2)
    as (_ & _ & Hone & Hnone & Htwo).
  split; [apply Hone; reflexivity|].
  split; [apply Hnone; reflexivity|apply Htwo; reflexivity].
Defined.

(** * Further properties of the helpers *)

(** ** Comparators by a numeric key *)

(** Comparing a numeric key of the elements by [<] is a strict weak
    ordering. *)
Lemma key_comparator_swo {A : Type} (key : A -> double) :
  StrictWeakOrder (fun lhs rhs => double_lt (key lhs) (key rhs)).
Proof.
  split.
  - intros a b Hab. apply double_lt_spec in Hab. apply double_lt_false. lra.
  - intros a b c Hab Hbc. apply double_lt_false in Hab, Hbc.
    apply double_lt_false. lra.
Qed.

(** X9: The comparator of [makeCompareShapeDataByBearing] can be handed to the
    standard algorithms whatever the base bearing, and a shape passes
    [std::is_sorted] under it exactly when the angles between the base
    bearing and the bearings of its roads ascend. *)
Theorem makeCompareShapeDataByBearing_sorts
  (angleBetweenBearings : double -> double -> double) (base_bearing : double) :
  StrictWeakOrder (makeCompareShapeDataByBearing angleBetweenBearings base_bearing)
  /\ (forall shape : IntersectionShape,
         std.is_sorted (makeCompareShapeDataByBearing angleBetweenBearings base_bearing)
           shape = true
         <-> (forall i j lhs rhs,
                 i < j -> nth_error shape i = Some lhs -> nth_error shape j = Some rhs ->
                 (angleBetweenBearings base_bearing (bearing lhs)
                  <= angleBetweenBearings base_bearing (bearing rhs))%Q)).
Proof.
  assert (Hswo : StrictWeakOrder
                   (makeCompareShapeDataByBearing angleBetweenBearings base_bearing))
    by (apply (key_comparator_swo
                 (fun s => angleBetweenBearings base_bearing (bearing s)))).
  split; [exact Hswo|].
  intros shape. rewrite (is_sorted_sorted_by _ shape).
  unfold sorted_by, makeCompareShapeDataByBearing.
  split; intros Hs i j lhs rhs Hlt Hi Hj.
  - apply double_lt_false. eauto.
  - apply double_lt_false. eauto.
Qed.

(** ** findRoadForEid *)

(** X1: [findRoadForEid] returns the iterator to the first road with the given
    edge id, and the end iterator exactly when no road has that id. *)
Theorem findRoadForEid_first_match {R : Type} `{ShapeData R}
  (intersection : list R) (eid_ : EdgeID) :
  intersection_helpers.findRoadForEid intersection eid_ <= cend intersection
  /\ (intersection_helpers.findRoadForEid intersection eid_ < cend intersection ->
      exists road,
        nth_error intersection (intersection_helpers.findRoadForEid intersection eid_)
        = Some road
        /\ eid (as_shape road) = eid_)
  /\ (forall j road,
         j < intersection_helpers.findRoadForEid intersection eid_ ->
         nth_error intersection j = Some road ->
         eid (as_shape road) <> eid_)
  /\ (intersection_helpers.findRoadForEid intersection eid_ = cend intersection
      <-> forall road, In road intersection -> eid (as_shape road) <> eid_).
Proof.
  unfold intersection_helpers.findRoadForEid, cend.
  destruct (find_if_spec (fun road : R => (eid (as_shape road) =? eid_)%N) intersection)
    as (Hle & Hbefore & Hat).
  split; [exact Hle|]. split; [|split].
  - intros Hlt. destruct (Hat Hlt) as (road & Hnth & Heq).
    exists road. split; [exact Hnth|]. now apply N.eqb_eq.
  - intros j road Hj Hnth. apply N.eqb_neq. exact (Hbefore j road Hj Hnth).
  - split.
    + intros Hend road Hin. destruct (In_nth_error _ _ Hin) as [j Hj].
      apply N.eqb_neq. apply (Hbefore j road); [|exact Hj].
      rewrite Hend. apply nth_error_Some. congruence.
    + intros Hnone.
      destruct (Nat.eq_dec (std.find_if (fun road : R => (eid (as_shape road) =? eid_)%N)
                              intersection) (length intersection)) as [Heq|Hneq];
        [exact Heq|].
      destruct Hat as (road & Hnth & Heq); [lia|].
      exfalso. apply (Hnone road (nth_error_In _ _ Hnth)). now apply N.eqb_eq.
Qed.

(** X2: Looking up the edge id of the road at an iterator leads back to that
    iterator when the edge ids of the intersection are distinct, and never
    past it. *)
Theorem findRoadForEid_round_trip {R : Type} `{ShapeData R}
  (intersection : list R) (i : nat) (road : R) :
  nth_error intersection i = Some road ->
  intersection_helpers.findRoadForEid intersection (eid (as_shape road)) <= i
  /\ (NoDup (map (fun r => eid (as_shape r)) intersection) ->
      intersection_helpers.findRoadForEid intersection (eid (as_shape road)) = i).
Proof.
  intros Hnth. unfold intersection_helpers.findRoadForEid.
  destruct (find_if_spec (fun r : R => (eid (as_shape r) =? eid (as_shape road))%N)
              intersection) as (Hle & Hbefore & Hat).
  set (found := std.find_if (fun r : R => (eid (as_shape r) =? eid (as_shape road))%N)
                  intersection) in *.
  assert (Hi : i < length intersection) by (apply nth_error_Some; congruence).
  assert (Hupper : found <= i).
  { destruct (Nat.le_gt_cases found i) as [Hok|Hgt]; [exact Hok|].
    exfalso. pose proof (Hbefore i road Hgt Hnth) as Hneq.
    now rewrite N.eqb_refl in Hneq. }
  split; [exact Hupper|].
  intros Hdistinct.
  destruct Hat as (first_road & Hfound & Heid); [lia|]. apply N.eqb_eq in Heid.
  apply (proj1 (NoDup_nth_error (map (fun r => eid (as_shape r)) intersection)) Hdistinct).
  - rewrite length_map. lia.
  - rewrite !nth_error_map, Hfound, Hnth. simpl. now rewrite Heid.
Qed.

Lemma findRoadForEid_round_trip_witness :
  intersection_helpers.findRoadForEid example_view (eid (as_shape (view_at 12%N true 260%Q)))
  <= 2
  /\ (NoDup (map (fun r : IntersectionViewData => eid (as_shape r)) example_view) ->
      intersection_helpers.findRoadForEid
        example_view (eid (as_shape (view_at 12%N true 260%Q))) = 2).
Proof.
  apply (findRoadForEid_round_trip example_view 2 (view_at 12%N true 260%Q)).
  reflexivity.
Defined.

(** ** findClosestBearing *)

(** X3: [findClosestBearing] never dereferences: on an empty intersection it
    returns the end iterator, and on a non-empty one the iterator to the
    first of the roads whose bearing deviates least from the given bearing,
    never the end iterator. *)
Theorem findClosestBearing_first_minimum {R : Type} `{ShapeData R} (bearing_ : double) :
  intersection_helpers.findClosestBearing (@nil R) bearing_ = cend (@nil R)
  /\ (forall intersection : list R,
         intersection <> [] ->
         exists best,
           intersection_helpers.findClosestBearing intersection bearing_ < cend intersection
           /\ nth_error intersection
                (intersection_helpers.findClosestBearing intersection bearing_) = Some best
           /\ (forall j road,
                  nth_error intersection j = Some road ->
                  (util_guidance.angularDeviation (bearing (as_shape best)) bearing_
                   <= util_guidance.angularDeviation (bearing (as_shape road)) bearing_)%Q)
           /\ (forall j road,
                  j < intersection_helpers.findClosestBearing intersection bearing_ ->
                  nth_error intersection j = Some road ->
                  (util_guidance.angularDeviation (bearing (as_shape best)) bearing_
                   < util_guidance.angularDeviation (bearing (as_shape road)) bearing_)%Q)).
Proof.
  split; [reflexivity|].
  intros intersection Hne.
  pose proof (key_comparator_swo
                (fun road : R =>
                   util_guidance.angularDeviation (bearing (as_shape road)) bearing_))
    as Hswo.
  destruct (min_element_spec _ intersection Hne) as (best & Hnth & Hmin & Hfirst).
  exists best. unfold intersection_helpers.findClosestBearing.
  split; [apply nth_error_Some; congruence|].
  split; [exact Hnth|]. split.
  - intros j road Hj. apply double_lt_false. exact (Hmin j road Hj).
  - intros j road Hlt Hj. apply double_lt_spec. exact (Hfirst j road Hlt Hj).
Qed.

Example findClosestBearing_example :
  intersection_helpers.findClosestBearing
    [mkIntersectionShapeData 1%N 10%Q 5%Q; mkIntersectionShapeData 2%N 350%Q 5%Q;
     mkIntersectionShapeData 3%N 180%Q 5%Q] 0%Q = 0
  /\ intersection_helpers.findClosestBearing
       [mkIntersectionShapeData 1%N 10%Q 5%Q; mkIntersectionShapeData 2%N 350%Q 5%Q;
        mkIntersectionShapeData 3%N 180%Q 5%Q] 200%Q = 2
  /\ intersection_helpers.findRoadForEid example_view 11%N = 1
  /\ intersection_helpers.findRoadForEid example_view 99%N = 3.
Proof. repeat split; reflexivity. Qed.

(** ** getHighestConnectedLaneCount over parts of an intersection *)

Lemma fold_left_max_start (values : list N) (start : N) :
  fold_left N.max values start = N.max start (fold_left N.max values 0%N).
Proof.
  revert start. induction values as [|v rest IH]; intros start; simpl.
  - lia.
  - rewrite (IH (N.max start v)), (IH (N.max 0 v)). lia.
Qed.

(** X5: for two non-empty groups of roads, the highest lane count of the
    groups taken together is the larger of the two groups' counts; and the
    count of a non-empty group is 0 only if every road of it has 0 lanes. *)
Theorem getHighestConnectedLaneCount_app {R : Type} `{RoadData R}
  (roads more : list R) (graph : NodeBasedDynamicGraph) :
  roads <> [] ->
  more <> [] ->
  roads ++ more <> []
  /\ intersection_helpers.getHighestConnectedLaneCount (roads ++ more) graph
     = N.max (intersection_helpers.getHighestConnectedLaneCount roads graph)
             (intersection_helpers.getHighestConnectedLaneCount more graph)
  /\ (intersection_helpers.getHighestConnectedLaneCount roads graph = 0%N
      <-> forall road, In road roads -> lane_count_of graph road = 0%N).
Proof.
  intros Hroads Hmore.
  split; [intros Happ; apply app_eq_nil in Happ; tauto|].
  rewrite !getHighestConnectedLaneCount_fold. split.
  - rewrite map_app, fold_left_app. apply fold_left_max_start.
  - destruct (fold_left_max_ge (map (lane_count_of graph) roads) 0%N) as [_ Hge].
    split.
    + intros Hzero road Hin.
      specialize (Hge (lane_count_of graph road) (in_map _ _ _ Hin)). lia.
    + intros Hall.
      destruct (fold_left_max_attained (map (lane_count_of graph) roads) 0%N)
        as [Hstart|Hin]; [exact Hstart|].
      apply in_map_iff in Hin. destruct Hin as (road & Heq & Hin).
      rewrite <- Heq. now apply Hall.
Qed.

Lemma getHighestConnectedLaneCount_app_witness :
  [view_at 10%N false 0%Q] ++ [view_at 11%N true 90%Q; view_at 12%N true 260%Q] <> []
  /\ intersection_helpers.getHighestConnectedLaneCount
       ([view_at 10%N false 0%Q] ++ [view_at 11%N true 90%Q; view_at 12%N true 260%Q])
       example_graph
     = N.max (intersection_helpers.getHighestConnectedLaneCount
                [view_at 10%N false 0%Q] example_graph)
             (intersection_helpers.getHighestConnectedLaneCount
                [view_at 11%N true 90%Q; view_at 12%N true 260%Q] example_graph)
  /\ (intersection_helpers.getHighestConnectedLaneCount
         [view_at 10%N false 0%Q] example_graph = 0%N
      <-> forall road,
            In road [view_at 10%N false 0%Q] -> lane_count_of example_graph road = 0%N).
Proof.
  apply (getHighestConnectedLaneCount_app
           [view_at 10%N false 0%Q] [view_at 11%N true 90%Q; view_at 12%N true 260%Q]
           example_graph).
  - discriminate.
  - discriminate.
Defined.

(** X6: The highest lane count does not depend on the order of the roads. *)
Theorem getHighestConnectedLaneCount_permutation {R : Type} `{RoadData R}
  (roads reordered : list R) (graph : NodeBasedDynamicGraph) :
  Permutation roads reordered ->
  intersection_helpers.getHighestConnectedLaneCount reordered graph
  = intersection_helpers.getHighestConnectedLaneCount roads graph.
Proof.
  intros Hperm. rewrite !getHighestConnectedLaneCount_fold.
  induction Hperm as [|x l l' _ IH|x y l|l l' l'' _ IH1 _ IH2]; simpl.
  - reflexivity.
  - rewrite (fold_left_max_start (map (lane_count_of graph) l')),
      (fold_left_max_start (map (lane_count_of graph) l)), IH. reflexivity.
  - f_equal. lia.
  - now rewrite IH2, IH1.
Qed.

Lemma getHighestConnectedLaneCount_permutation_witness :
  intersection_helpers.getHighestConnectedLaneCount (rev example_view) example_graph
  = intersection_helpers.getHighestConnectedLaneCount example_view example_graph.
Proof.
  apply (getHighestConnectedLaneCount_permutation example_view (rev example_view)
           example_graph).
  apply Permutation_rev.
Defined.

(** ** The sort invariant under removal and concatenation *)

Lemma sorted_by_filter {A : Type} (comp : A -> A -> bool) (keep : A -> bool) (l : list A) :
  sorted_by comp l -> sorted_by comp (filter keep l).
Proof.
  induction l as [|x rest IH]; intros Hs; simpl; [exact Hs|].
  apply sorted_by_cons in Hs. destruct Hs as [Hhd Htl].
  destruct (keep x); [|now apply IH].
  apply sorted_by_cons. split; [|now apply IH].
  intros y Hy. apply Hhd. apply filter_In in Hy. tauto.
Qed.

Lemma sorted_by_app {A : Type} (comp : A -> A -> bool) (l1 l2 : list A) :
  sorted_by comp (l1 ++ l2)
  <-> sorted_by comp l1 /\ sorted_by comp l2
      /\ (forall x y, In x l1 -> In y l2 -> comp y x = false).
Proof.
  induction l1 as [|x rest IH]; simpl.
  - split; [intros Hs|tauto]. split; [apply sorted_by_nil|]. split; [exact Hs|].
    intros ? ? [].
  - rewrite !sorted_by_cons, IH. split.
    + intros (Hhd & H1 & H2 & Hcross). repeat split; try assumption.
      * intros y Hy. apply Hhd. apply in_or_app. now left.
      * intros a b [<-|Ha] Hb; [apply Hhd; apply in_or_app; now right|now apply Hcross].
    + intros ((Hhd & H1) & H2 & Hcross). repeat split; try assumption.
      * intros y Hy. apply in_app_or in Hy. destruct Hy as [Hy|Hy];
          [now apply Hhd|apply Hcross; [now left|exact Hy]].
      * intros a b Ha Hb. apply Hcross; [now right|exact Hb].
Qed.

Lemma valid_sorted_by (view : IntersectionView) :
  valid view = true <-> sorted_by CompareByAngle view.
Proof.
  unfold valid.
  change (fun lhs rhs : IntersectionViewData => CompareByAngle lhs rhs)
    with CompareByAngle.
  apply is_sorted_sorted_by. exact CompareByAngle_swo.
Qed.

(** X7: Removing roads from a valid view leaves a valid view. *)
Theorem valid_filter (view : IntersectionView) (keep : IntersectionViewData -> bool) :
  valid view = true -> valid (filter keep view) = true.
Proof.
  intros Hvalid. apply valid_sorted_by. apply sorted_by_filter.
  now apply valid_sorted_by.
Qed.

Lemma valid_filter_witness : valid (filter entry_allowed example_view) = true.
Proof.
  apply (valid_filter example_view entry_allowed). reflexivity.
Defined.

(** X8: Two views put one after the other are valid exactly when each is valid
    and no turn angle of the first exceeds a turn angle of the second. *)
Theorem valid_app (front_view back_view : IntersectionView) :
  valid (front_view ++ back_view) = true
  <-> valid front_view = true /\ valid back_view = true
      /\ (forall x y, In x front_view -> In y back_view -> (angle x <= angle y)%Q).
Proof.
  rewrite !valid_sorted_by, sorted_by_app.
  split; intros (H1 & H2 & Hcross); repeat split; try assumption.
  - intros x y Hx Hy. apply double_lt_false. exact (Hcross x y Hx Hy).
  - intros x y Hx Hy. apply double_lt_false. exact (Hcross x y Hx Hy).
Qed.

(** ** angleToDirectionModifier about the straight-ahead axis *)

(** X10: The thresholds lie symmetrically about 180: reflecting an angle about
    the straight-ahead axis turns [Right] into [Left] and [Left] into
    [Right] and keeps [Straight]; no other modifier is ever returned. *)
Theorem angleToDirectionModifier_reflection (angle_ : double) :
  (engine_guidance.angleToDirectionModifier (360 - angle_)%Q = Left
   <-> engine_guidance.angleToDirectionModifier angle_ = Right)
  /\ (engine_guidance.angleToDirectionModifier (360 - angle_)%Q = Right
      <-> engine_guidance.angleToDirectionModifier angle_ = Left)
  /\ (engine_guidance.angleToDirectionModifier (360 - angle_)%Q = Straight
      <-> engine_guidance.angleToDirectionModifier angle_ = Straight)
  /\ (engine_guidance.angleToDirectionModifier angle_ = Right
      \/ engine_guidance.angleToDirectionModifier angle_ = Straight
      \/ engine_guidance.angleToDirectionModifier angle_ = Left).
Proof.
  unfold engine_guidance.angleToDirectionModifier.
  destruct (double_lt angle_ 135%Q) eqn:H135; destruct (double_le angle_ 225%Q) eqn:H225;
    destruct (double_lt (360 - angle_)%Q 135%Q) eqn:M135;
    destruct (double_le (360 - angle_)%Q 225%Q) eqn:M225.
  all: try apply double_lt_spec in H135; try apply double_lt_false in H135.
  all: try apply double_le_spec in H225; try apply double_le_false in H225.
  all: try apply double_lt_spec in M135; try apply double_lt_false in M135.
  all: try apply double_le_spec in M225; try apply double_le_false in M225.
  all: try lra.
  all: repeat split; intros; try discriminate; try reflexivity; auto.
Qed.

(** ** forEachRoundabout over longer and shorter routes *)

Section RoundaboutScans.
Variables entersRoundabout leavesRoundabout : TurnInstruction -> bool.

Lemma roundabouts_matched (steps : list engine_guidance.RouteStep) :
  matched_pairs entersRoundabout leavesRoundabout steps 0
    (engine_guidance.roundabouts entersRoundabout leavesRoundabout steps)
  /\ forward_disjoint 0 (length steps)
       (engine_guidance.roundabouts entersRoundabout leavesRoundabout steps).
Proof.
  apply (forEachRoundabout_loop_matched entersRoundabout leavesRoundabout
           steps (S (length steps)) 0); lia.
Qed.

Lemma forEachRoundabout_fold {Fn : Type} (call : Fn -> nat * nat -> Fn)
  (steps : list engine_guidance.RouteStep) (fn : Fn) :
  engine_guidance.forEachRoundabout entersRoundabout leavesRoundabout call steps fn
  = fold_left call (engine_guidance.roundabouts entersRoundabout leavesRoundabout steps) fn.
Proof. apply forEachRoundabout_loop_fold. Qed.

(** From every index on there are matched pairs. *)
Lemma matched_pairs_exist (steps : list engine_guidance.RouteStep) (from : nat) :
  exists ranges, matched_pairs entersRoundabout leavesRoundabout steps from ranges.
Proof.
  destruct (Nat.le_gt_cases from (length steps)) as [Hin|Hout].
  - eexists.
    apply (forEachRoundabout_loop_matched entersRoundabout leavesRoundabout
             steps (S (length steps)) from); lia.
  - exists []. apply matched_no_enter. intros k Hk.
    apply not_enters_at_end. lia.
Qed.

(** A scan may start earlier when no step in between enters. *)
Lemma matched_pairs_skip (steps : list engine_guidance.RouteStep) (from from' : nat)
  (ranges : list (nat * nat)) :
  from <= from' ->
  (forall k, from <= k < from' -> ~ enters_at entersRoundabout steps k) ->
  matched_pairs entersRoundabout leavesRoundabout steps from' ranges ->
  matched_pairs entersRoundabout leavesRoundabout steps from ranges.
Proof.
  intros Hle Hskip Hscan.
  assert (Hfirst : forall enter,
             first_from (enters_at entersRoundabout steps) from' enter ->
             first_from (enters_at entersRoundabout steps) from enter).
  { intros enter (Hge & Hat & Hbefore). split; [lia|]. split; [exact Hat|].
    intros k Hk. destruct (Nat.lt_ge_cases k from'); [apply Hskip; lia|apply Hbefore; lia]. }
  inversion Hscan as [f Hnone|f enter Henter Hnone|f enter leave rest Henter Hleave Hrest];
    subst.
  - apply matched_no_enter. intros k Hk.
    destruct (Nat.lt_ge_cases k from'); [apply Hskip; lia|apply Hnone; lia].
  - apply matched_no_leave with (enter := enter); [now apply Hfirst|exact Hnone].
  - apply matched_pair; [now apply Hfirst|exact Hleave|exact Hrest].
Qed.

End RoundaboutScans.

Lemma filter_skipn_le {A : Type} (p : A -> bool) (l : list A) (a b : nat) :
  a <= b -> length (filter p (skipn b l)) <= length (filter p (skipn a l)).
Proof.
  revert a b. induction l as [|x rest IH]; intros a b Hab.
  - now rewrite !skipn_nil.
  - destruct b as [|b]; [replace a with 0 by lia; lia|].
    destruct a as [|a].
    + simpl skipn. specialize (IH 0 b (Nat.le_0_l b)). simpl skipn in IH.
      simpl filter. destruct (p x); simpl; lia.
    + simpl skipn. apply IH. lia.
Qed.

Lemma filter_skipn_hit {A : Type} (p : A -> bool) (l : list A) (k : nat) (x : A) :
  nth_error l k = Some x -> p x = true ->
  length (filter p (skipn k l)) = S (length (filter p (skipn (S k) l))).
Proof.
  revert k. induction l as [|y rest IH]; intros k Hk Hp.
  - destruct k; discriminate.
  - destruct k as [|k].
    + injection Hk as ->. simpl. now rewrite Hp.
    + simpl in Hk. change (skipn (S k) (y :: rest)) with (skipn k rest).
      change (skipn (S (S k)) (y :: rest)) with (skipn (S k) rest). now apply IH.
Qed.

Section RoundaboutCounts.
Variables entersRoundabout leavesRoundabout : TurnInstruction -> bool.

Lemma matched_pairs_count (steps : list engine_guidance.RouteStep) (from : nat)
  (ranges : list (nat * nat)) :
  matched_pairs entersRoundabout leavesRoundabout steps from ranges ->
  length ranges <= count_entering entersRoundabout (skipn from steps)
  /\ length ranges <= count_leaving leavesRoundabout (skipn from steps).
Proof.
  unfold count_entering, count_leaving.
  induction 1 as [from Hnone|from enter Henter Hnone
                  |from enter leave ranges Henter Hleave Hrest [IHe IHl]];
    simpl length; try (split; lia).
  destruct Henter as (Hfe & (se & Hse & Hpe) & _).
  destruct Hleave as (Hel & (sl & Hsl & Hpl) & _).
  split.
  - pose proof (filter_skipn_le
                  (fun step => entersRoundabout
                     (engine_guidance.instruction (engine_guidance.maneuver step)))
                  steps from enter Hfe) as Hmono.
    rewrite (filter_skipn_hit _ steps enter se Hse Hpe) in Hmono.
    pose proof (filter_skipn_le
                  (fun step => entersRoundabout
                     (engine_guidance.instruction (engine_guidance.maneuver step)))
                  steps (S enter) (S leave)) as Hmono'.
    lia.
  - pose proof (filter_skipn_le
                  (fun step => leavesRoundabout
                     (engine_guidance.instruction (engine_guidance.maneuver step)))
                  steps from leave) as Hmono.
    rewrite (filter_skipn_hit _ steps leave sl Hsl Hpl) in Hmono.
    lia.
Qed.

End RoundaboutCounts.

(** X12: [forEachRoundabout] calls its functor at most as often as there are
    steps that enter a roundabout, and at most as often as there are steps
    that leave one. *)
Theorem forEachRoundabout_call_bound
  (entersRoundabout leavesRoundabout : TurnInstruction -> bool)
  (steps : list engine_guidance.RouteStep) :
  length (engine_guidance.roundabouts entersRoundabout leavesRoundabout steps)
  <= count_entering entersRoundabout steps
  /\ length (engine_guidance.roundabouts entersRoundabout leavesRoundabout steps)
     <= count_leaving leavesRoundabout steps
  /\ length (engine_guidance.roundabouts entersRoundabout leavesRoundabout steps)
     <= length steps.
Proof.
  destruct (roundabouts_matched entersRoundabout leavesRoundabout steps) as [Hmatched _].
  destruct (matched_pairs_count _ _ _ _ _ Hmatched) as [He Hl]. simpl skipn in He, Hl.
  split; [exact He|]. split; [exact Hl|].
  etransitivity; [exact He|]. apply filter_length_le.
Qed.

(** X11: The functor is called at least once exactly when some step that enters
    a roundabout is, or is followed by, a step that leaves one; otherwise
    it is returned as it was passed in. *)
Theorem forEachRoundabout_calls_iff
  (entersRoundabout leavesRoundabout : TurnInstruction -> bool)
  (steps : list engine_guidance.RouteStep) :
  (engine_guidance.roundabouts entersRoundabout leavesRoundabout steps <> []
   <-> exists enter leave,
         enter <= leave
         /\ enters_at entersRoundabout steps enter
         /\ leaves_at leavesRoundabout steps leave)
  /\ (engine_guidance.roundabouts entersRoundabout leavesRoundabout steps = [] ->
      forall (Fn : Type) (call : Fn -> nat * nat -> Fn) (fn : Fn),
        engine_guidance.forEachRoundabout entersRoundabout leavesRoundabout call steps fn
        = fn).
Proof.
  split.
  - destruct (roundabouts_matched entersRoundabout leavesRoundabout steps) as [Hmatched _].
    remember (engine_guidance.roundabouts entersRoundabout leavesRoundabout steps)
      as ranges eqn:Hranges. clear Hranges.
    inversion Hmatched as [f Hnone|f enter Henter Hnone
                           |f enter leave rest Henter Hleave Hrest]; subst.
    + split; [congruence|]. intros (e & l & _ & He & _).
      exfalso. exact (Hnone e (Nat.le_0_l e) He).
    + split; [congruence|]. intros (e & l & Hel & He & Hl).
      exfalso. destruct Henter as (_ & _ & Hbefore).
      destruct (Nat.lt_ge_cases e enter) as [Hlt|Hge].
      * apply (Hbefore e); [lia|exact He].
      * apply (Hnone l); [lia|exact Hl].
    + split; [|discriminate]. intros _. exists enter, leave.
      destruct Henter as (_ & He & _). destruct Hleave as (Hel & Hl & _). auto.
  - intros Hnone Fn call fn. rewrite forEachRoundabout_fold, Hnone. reflexivity.
Qed.

Lemma enters_at_lt (reads : TurnInstruction -> bool)
  (steps : list engine_guidance.RouteStep) (k : nat) :
  enters_at reads steps k -> k < length steps.
Proof. intros (step & Hnth & _). apply nth_error_Some. congruence. Qed.

Lemma enters_at_app_l (reads : TurnInstruction -> bool)
  (steps more : list engine_guidance.RouteStep) (k : nat) :
  k < length steps ->
  (enters_at reads (steps ++ more) k <-> enters_at reads steps k).
Proof.
  intros Hk. unfold enters_at. now rewrite nth_error_app1.
Qed.

Lemma enters_at_app_r (reads : TurnInstruction -> bool)
  (pre steps : list engine_guidance.RouteStep) (k : nat) :
  enters_at reads (pre ++ steps) (length pre + k) <-> enters_at reads steps k.
Proof.
  unfold enters_at. rewrite nth_error_app2 by lia.
  now replace (length pre + k - length pre) with k by lia.
Qed.

Section RoundaboutExtension.
Variables entersRoundabout leavesRoundabout : TurnInstruction -> bool.

Lemma first_from_app_l (reads : TurnInstruction -> bool)
  (steps more : list engine_guidance.RouteStep) (from i : nat) :
  first_from (enters_at reads steps) from i ->
  first_from (enters_at reads (steps ++ more)) from i.
Proof.
  intros (Hge & Hat & Hbefore).
  pose proof (enters_at_lt _ _ _ Hat) as Hlt.
  split; [exact Hge|]. split; [now apply enters_at_app_l|].
  intros k Hk Hk_at. apply (Hbefore k Hk).
  apply (enters_at_app_l reads steps more k); [lia|exact Hk_at].
Qed.

Lemma first_from_app_r (reads : TurnInstruction -> bool)
  (pre steps : list engine_guidance.RouteStep) (from i : nat) :
  first_from (enters_at reads steps) from i ->
  first_from (enters_at reads (pre ++ steps)) (length pre + from) (length pre + i).
Proof.
  intros (Hge & Hat & Hbefore).
  split; [lia|]. split; [now apply enters_at_app_r|].
  intros k Hk Hk_at. apply (Hbefore (k - length pre)); [lia|].
  apply (enters_at_app_r reads pre steps).
  now replace (length pre + (k - length pre)) with k by lia.
Qed.

(** The pairs matched in a route stay matched when the route goes on. *)
Lemma matched_pairs_extend (steps more : list engine_guidance.RouteStep) (from : nat)
  (ranges : list (nat * nat)) :
  matched_pairs entersRoundabout leavesRoundabout steps from ranges ->
  exists rest,
    matched_pairs entersRoundabout leavesRoundabout (steps ++ more) from (ranges ++ rest).
Proof.
  induction 1 as [from Hnone|from enter Henter Hnone
                  |from enter leave ranges Henter Hleave Hrest [rest IH]].
  - apply matched_pairs_exist.
  - apply matched_pairs_exist.
  - exists rest. simpl.
    apply matched_pair; [|exact (first_from_app_l _ _ more _ _ Hleave)|exact IH].
    exact (first_from_app_l _ _ more _ _ Henter).
Qed.

(** The pairs matched in a route are those of the route behind a prefix,
    moved by the length of the prefix. *)
Lemma matched_pairs_shift (pre steps : list engine_guidance.RouteStep) (from : nat)
  (ranges : list (nat * nat)) :
  matched_pairs entersRoundabout leavesRoundabout steps from ranges ->
  matched_pairs entersRoundabout leavesRoundabout (pre ++ steps) (length pre + from)
    (shift_ranges (length pre) ranges).
Proof.
  induction 1 as [from Hnone|from enter Henter Hnone
                  |from enter leave ranges Henter Hleave Hrest IH].
  - apply matched_no_enter. intros k Hk Hat. apply (Hnone (k - length pre)); [lia|].
    apply (enters_at_app_r entersRoundabout pre steps).
    now replace (length pre + (k - length pre)) with k by lia.
  - apply matched_no_leave with (enter := length pre + enter).
    + exact (first_from_app_r _ pre _ _ _ Henter).
    + intros k Hk Hat. apply (Hnone (k - length pre)); [lia|].
      apply (enters_at_app_r leavesRoundabout pre steps).
      now replace (length pre + (k - length pre)) with k by lia.
  - simpl. apply matched_pair.
    + exact (first_from_app_r _ pre _ _ _ Henter).
    + exact (first_from_app_r _ pre _ _ _ Hleave).
    + rewrite <- Nat.add_succ_r. exact IH.
Qed.

End RoundaboutExtension.

(** X13: The roundabouts found in a route are found again, first and in the
    same places, in every continuation of the route: steps that follow can
    only add ranges. *)
Theorem forEachRoundabout_continuation
  (entersRoundabout leavesRoundabout : TurnInstruction -> bool)
  (steps more : list engine_guidance.RouteStep) :
  exists rest,
    engine_guidance.roundabouts entersRoundabout leavesRoundabout (steps ++ more)
    = engine_guidance.roundabouts entersRoundabout leavesRoundabout steps ++ rest.
Proof.
  destruct (roundabouts_matched entersRoundabout leavesRoundabout steps) as [Hsteps _].
  destruct (roundabouts_matched entersRoundabout leavesRoundabout (steps ++ more))
    as [Hall _].
  destruct (matched_pairs_extend _ _ _ more _ _ Hsteps) as [rest Hrest].
  exists rest. exact (matched_pairs_unique _ _ _ _ _ _ Hall Hrest).
Qed.

(** X14: Steps ahead of the first step that enters a roundabout are passed
    over, also when they leave one: behind a prefix without entering step
    the ranges are those of the remaining route, counted from the start of
    the whole route. *)
Theorem forEachRoundabout_skips_prefix
  (entersRoundabout leavesRoundabout : TurnInstruction -> bool)
  (pre steps : list engine_guidance.RouteStep) :
  (forall step,
      In step pre ->
      entersRoundabout (engine_guidance.instruction (engine_guidance.maneuver step))
      = false) ->
  engine_guidance.roundabouts entersRoundabout leavesRoundabout (pre ++ steps)
  = shift_ranges (length pre)
      (engine_guidance.roundabouts entersRoundabout leavesRoundabout steps).
Proof.
  intros Hpre.
  destruct (roundabouts_matched entersRoundabout leavesRoundabout steps) as [Hsteps _].
  destruct (roundabouts_matched entersRoundabout leavesRoundabout (pre ++ steps))
    as [Hall _].
  apply (matched_pairs_unique _ _ _ _ _ _ Hall).
  apply (matched_pairs_skip _ _ _ 0 (length pre + 0)); [lia| |].
  - intros k Hk (step & Hnth & Htrue).
    rewrite nth_error_app1 in Hnth by lia.
    rewrite (Hpre step (nth_error_In _ _ Hnth)) in Htrue. discriminate.
  - exact (matched_pairs_shift _ _ pre _ _ _ Hsteps).
Qed.

Lemma forEachRoundabout_skips_prefix_witness :
  engine_guidance.roundabouts enters_type_1 leaves_type_2
    ([step_of_type 2%N; step_of_type 0%N]
     ++ [step_of_type 1%N; step_of_type 0%N; step_of_type 2%N])
  = shift_ranges 2
      (engine_guidance.roundabouts enters_type_1 leaves_type_2
         [step_of_type 1%N; step_of_type 0%N; step_of_type 2%N]).
Proof.
  apply (forEachRoundabout_skips_prefix enters_type_1 leaves_type_2
           [step_of_type 2%N; step_of_type 0%N]
           [step_of_type 1%N; step_of_type 0%N; step_of_type 2%N]).
  intros step [<-|[<-|[]]]; reflexivity.
Defined.

(** ** The range of lanesToTheRight *)

(** X15: On a step without intersection [lanesToTheRight] is undefined.
    Otherwise it returns the range of the last [first_lane_from_the_right]
    lanes of the first intersection, whatever [lanes_in_turn] is; the range
    lies within the lane description exactly when that count does not
    exceed the size of the description, and then holds that many lanes. *)
Theorem lanesToTheRight_range (step : engine_guidance.RouteStep) :
  (engine_guidance.intersections step = [] ->
   engine_guidance.lanesToTheRight step = Undefined)
  /\ (forall first rest,
         engine_guidance.intersections step = first :: rest ->
         exists span,
           engine_guidance.lanesToTheRight step = Returns span
           /\ engine_guidance.range_end span
              = Z.of_nat (length (engine_guidance.lane_description first))
           /\ (engine_guidance.range_end span - engine_guidance.range_begin span
               = Z.of_N (engine_guidance.first_lane_from_the_right
                           (engine_guidance.lanes first)))%Z
           /\ (engine_guidance.in_range (engine_guidance.lane_description first) span = true
               <-> (engine_guidance.first_lane_from_the_right (engine_guidance.lanes first)
                    <= N.of_nat (length (engine_guidance.lane_description first)))%N)
           /\ ((engine_guidance.first_lane_from_the_right (engine_guidance.lanes first)
                <= N.of_nat (length (engine_guidance.lane_description first)))%N ->
               exists right_lanes,
                 engine_guidance.lanes_of_range
                   (engine_guidance.lane_description first) span = Returns right_lanes
                 /\ N.of_nat (length right_lanes)
                    = engine_guidance.first_lane_from_the_right
                        (engine_guidance.lanes first)
                 /\ exists other_lanes,
                      engine_guidance.lane_description first = other_lanes ++ right_lanes)).
Proof.
  split.
  - intros Hnone. unfold engine_guidance.lanesToTheRight. now rewrite Hnone.
  - intros first rest Hfront.
    eexists. split; [exact (lanesToTheRight_value step first rest Hfront)|].
    cbn [engine_guidance.range_begin engine_guidance.range_end].
    split; [reflexivity|]. split; [lia|]. split.
    + unfold engine_guidance.in_range, cend.
      cbn [engine_guidance.range_begin engine_guidance.range_end].
      rewrite !andb_true_iff, !Z.leb_le. lia.
    + intros Hle.
      exists (skipn (length (engine_guidance.lane_description first)
                     - N.to_nat (engine_guidance.first_lane_from_the_right
                                   (engine_guidance.lanes first)))
                    (engine_guidance.lane_description first)).
      split; [now apply lanes_of_range_suffix|].
      split; [rewrite length_skipn; lia|].
      eexists. symmetry. apply firstn_skipn.
Qed.

Lemma lanesToTheRight_range_witness :
  exists span,
    engine_guidance.lanesToTheRight example_lane_step = Returns span
    /\ engine_guidance.range_end span = Z.of_nat (length example_lanes)
    /\ (engine_guidance.range_end span - engine_guidance.range_begin span = Z.of_N 1)%Z
    /\ (engine_guidance.in_range example_lanes span = true
        <-> (1 <= N.of_nat (length example_lanes))%N)
    /\ ((1 <= N.of_nat (length example_lanes))%N ->
        exists right_lanes,
          engine_guidance.lanes_of_range example_lanes span = Returns right_lanes
          /\ N.of_nat (length right_lanes) = 1%N
          /\ exists other_lanes, example_lanes = other_lanes ++ right_lanes).
Proof.
  apply (proj2 (lanesToTheRight_range example_lane_step)
           (engine_guidance.mkIntermediateIntersection
              (engine_guidance.mkLaneTuple 2%N 1%N) example_lanes) []).
  reflexivity.
Defined.

Example lanesToTheRight_out_of_range :
  engine_guidance.lanesToTheRight (step_with_lanes [1; 2]%N 0%N 3%N)
  = Returns (engine_guidance.make_iterator_range (-1) 2)
  /\ engine_guidance.lanes_of_range [1; 2]%N (engine_guidance.make_iterator_range (-1) 2)
     = Undefined.
Proof. split; reflexivity. Qed.

(** ** Exclusion in findClosestTurn is removal *)

Lemma min_element_loop_value {A : Type} (comp : A -> A -> bool) (rest : list A) :
  forall (pre : list A) (smallest : nat) (v : A),
    nth_error pre smallest = Some v ->
    nth_error (pre ++ rest) (std.min_element_loop comp rest (length pre) smallest v)
    = Some (min_element_value comp rest v).
Proof.
  induction rest as [|x rest' IH]; intros pre s v Hs; simpl.
  - rewrite app_nil_r. exact Hs.
  - assert (Hcons : pre ++ x :: rest' = (pre ++ [x]) ++ rest')
      by (rewrite <- app_assoc; reflexivity).
    assert (Hlen : S (length pre) = length (pre ++ [x]))
      by (rewrite length_app; simpl; lia).
    rewrite Hcons, Hlen.
    destruct (comp x v).
    + apply IH. rewrite nth_error_app2 by lia. now rewrite Nat.sub_diag.
    + apply IH. rewrite nth_error_app1; [exact Hs|].
      apply nth_error_Some. congruence.
Qed.

Lemma min_element_value_spec {A : Type} (comp : A -> A -> bool) (v : A) (rest : list A) :
  nth_error (v :: rest) (std.min_element comp (v :: rest))
  = Some (min_element_value comp rest v).
Proof. apply (min_element_loop_value comp rest [v] 0 v). reflexivity. Qed.

Section ExclusionIsRemoval.
Context {R : Type} `{RoadData R}.
Variable target : double.
Variable filter_ : R -> bool.

Let kept (road : R) : bool := negb (filter_ road).

(** From a kept road on, excluded roads never become the candidate. *)
Lemma min_element_value_kept (rest : list R) :
  forall v,
    filter_ v = false ->
    min_element_value (intersection_helpers.closest_turn_comp target filter_) rest v
    = min_element_value (intersection_helpers.closest_turn_comp target (fun _ => false))
        (filter kept rest) v.
Proof.
  induction rest as [|x rest' IH]; intros v Hv; simpl; [reflexivity|].
  unfold kept at 1. unfold intersection_helpers.closest_turn_comp at 1. cbv zeta.
  rewrite Hv. destruct (filter_ x) eqn:Hx; simpl negb; cbv iota.
  - unfold std.tie_lt, std.bool_lt. simpl. now apply IH.
  - simpl min_element_value.
    unfold intersection_helpers.closest_turn_comp at 3. cbv zeta.
    unfold std.tie_lt, std.bool_lt. simpl.
    destruct (double_lt _ _); now apply IH.
Qed.

(** While the candidate is excluded, the first kept road replaces it. *)
Lemma min_element_value_excluded (rest : list R) :
  forall v x xs,
    filter_ v = true ->
    filter kept rest = x :: xs ->
    min_element_value (intersection_helpers.closest_turn_comp target filter_) rest v
    = min_element_value (intersection_helpers.closest_turn_comp target (fun _ => false))
        xs x.
Proof.
  induction rest as [|y rest' IH]; intros v x xs Hv Hkept; simpl in Hkept;
    [discriminate|].
  simpl min_element_value. unfold kept at 1 in Hkept.
  destruct (filter_ y) eqn:Hy; simpl negb in Hkept; cbv iota in Hkept.
  - destruct (intersection_helpers.closest_turn_comp target filter_ y v);
      now apply IH.
  - injection Hkept as <- <-.
    unfold intersection_helpers.closest_turn_comp at 1. cbv zeta.
    rewrite Hv, Hy. unfold std.tie_lt, std.bool_lt. simpl.
    now apply min_element_value_kept.
Qed.

End ExclusionIsRemoval.

(** X4: Excluded roads play no part in the choice among the others: when some
    road is kept, [findClosestTurn] returns the road it returns, without
    exclusion, on the intersection from which the excluded roads have been
    removed. *)
Theorem findClosestTurn_exclusion_is_removal {R : Type} `{RoadData R}
  (intersection : list R) (target : double) (filter_ : R -> bool) :
  filter (fun road => negb (filter_ road)) intersection <> [] ->
  exists i i' best,
    intersection_helpers.findClosestTurn intersection target filter_ = Returns i
    /\ nth_error intersection i = Some best
    /\ intersection_helpers.findClosestTurn
         (filter (fun road => negb (filter_ road)) intersection) target (fun _ => false)
       = Returns i'
    /\ nth_error (filter (fun road => negb (filter_ road)) intersection) i' = Some best.
Proof.
  intros Hkept.
  destruct intersection as [|v rest]; [now contradiction Hkept|].
  set (kept := fun road : R => negb (filter_ road)) in *.
  destruct (filter kept (v :: rest)) as [|x xs] eqn:Hfiltered;
    [now contradiction Hkept|].
  pose proof (min_element_value_spec
                (intersection_helpers.closest_turn_comp target filter_) v rest) as Hfull.
  pose proof (min_element_value_spec
                (intersection_helpers.closest_turn_comp target (fun _ => false)) x xs)
    as Hsub.
  assert (Hsame : min_element_value
                    (intersection_helpers.closest_turn_comp target filter_) rest v
                  = min_element_value
                      (intersection_helpers.closest_turn_comp target (fun _ => false))
                      xs x).
  { simpl in Hfiltered. unfold kept at 1 in Hfiltered.
    destruct (filter_ v) eqn:Hv; simpl negb in Hfiltered; cbv iota in Hfiltered.
    - now apply min_element_value_excluded.
    - injection Hfiltered as <- <-. now apply min_element_value_kept. }
  rewrite <- Hsame in Hsub.
  set (best := min_element_value
                 (intersection_helpers.closest_turn_comp target filter_) rest v) in *.
  assert (Hbest : filter_ best = false).
  { apply nth_error_In in Hsub. rewrite <- Hfiltered in Hsub.
    apply filter_In in Hsub. destruct Hsub as [_ Hk]. unfold kept in Hk.
    now apply negb_true_iff in Hk. }
  exists (std.min_element (intersection_helpers.closest_turn_comp target filter_)
            (v :: rest)),
    (std.min_element (intersection_helpers.closest_turn_comp target (fun _ => false))
       (x :: xs)),
    best.
  split; [|split; [exact Hfull|split; [|exact Hsub]]].
  - unfold intersection_helpers.findClosestTurn. cbv zeta. now rewrite Hfull, Hbest.
  - unfold intersection_helpers.findClosestTurn. cbv zeta. now rewrite Hsub.
Qed.

Lemma findClosestTurn_exclusion_is_removal_witness :
  exists i i' best,
    intersection_helpers.findClosestTurn
      example_view 350%Q (fun road => negb (entry_allowed road)) = Returns i
    /\ nth_error example_view i = Some best
    /\ intersection_helpers.findClosestTurn
         (filter (fun road => negb (negb (entry_allowed road))) example_view)
         350%Q (fun _ => false)
       = Returns i'
    /\ nth_error (filter (fun road => negb (negb (entry_allowed road))) example_view) i'
       = Some best.
Proof.
  apply (findClosestTurn_exclusion_is_removal
           example_view 350%Q (fun road => negb (entry_allowed road))).
  discriminate.
Defined.
